(** * A JSON document store on the local file system (Go-Database, main.go)

    The driver keeps one JSON file per record, [root/collection/resource.json],
    and serialises writers of one collection through a registry of mutexes.
    This development embeds [New], [Write], [Read], [ReadAll], [Delete] and
    [getOrCreateMutex] over a model of the library calls they make
    (path/filepath, os, io/ioutil, sync, encoding/json) and checks the
    specification of the storage engine against them. *)

From Stdlib.Init Require Import Byte.
From Stdlib.Strings Require Byte.
From Stdlib.Strings Require Import Ascii.
From stdpp Require Import gmap strings list fin_maps sorting.

(** ** Strings

    Go's [a + b] on strings is [a +:+ b]. *)

Global Instance byte_eq_dec : EqDecision byte := Strings.Byte.byte_eq_dec.

Definition newline : string := String (ascii_of_nat 10) EmptyString.

(** ** path/filepath (Unix) *)

Module filepath.

Definition Separator : ascii := "/"%char.

(** [strings.Split(s, "/")]. *)
Fixpoint split (s : string) : list string :=
  match s with
  | EmptyString => [EmptyString]
  | String a s' =>
      if decide (a = Separator) then EmptyString :: split s'
      else match split s' with
           | [] => [String a EmptyString]
           | c :: cs => String a c :: cs
           end
  end.

(** [strings.Join(elems, "/")]. *)
Fixpoint join (elems : list string) : string :=
  match elems with
  | [] => ""
  | [e] => e
  | e :: rest => e +:+ "/" +:+ join rest
  end.

Definition IsAbs (path : string) : bool :=
  match path with
  | String a _ => bool_decide (a = Separator)
  | EmptyString => false
  end.

(** One element of the path against the elements kept so far (innermost
    first): empty and [.] elements vanish, [..] cancels the element before
    it, and is dropped at the root of a rooted path. *)
Definition clean_step (rooted : bool) (kept : list string) (e : string)
  : list string :=
  if decide (e = "" ∨ e = ".") then kept
  else if decide (e = "..") then
    match kept with
    | top :: kept' => if decide (top = "..") then e :: kept else kept'
    | [] => if rooted then [] else [e]
    end
  else e :: kept.

Definition clean_elems (rooted : bool) (elems : list string) : list string :=
  rev (fold_left (clean_step rooted) elems []).

Definition render (rooted : bool) (elems : list string) : string :=
  if rooted then "/" +:+ join elems
  else match elems with [] => "." | _ => join elems end.

(** [filepath.Clean]. *)
Definition Clean (path : string) : string :=
  match path with
  | EmptyString => "."
  | _ => render (IsAbs path) (clean_elems (IsAbs path) (split path))
  end.

(** [filepath.Join]: the elements from the first non-empty one on are
    joined with the separator and cleaned. *)
Fixpoint Join (elem : list string) : string :=
  match elem with
  | [] => ""
  | e :: rest => if decide (e = "") then Join rest else Clean (join elem)
  end.

End filepath.

(** ** Errors *)

Inductive Errno := ENOENT | ENOTDIR | EISDIR | ENOTEMPTY | EEXIST | EINVAL | EBUSY.

(** The error values the driver returns or passes on. *)
Inductive error :=
  | PathError (op path : string) (err : Errno)      (* *os.PathError *)
  | LinkError (op old new : string) (err : Errno)   (* *os.LinkError *)
  | Errorf (msg : string)                           (* fmt.Errorf(...) *)
  | JSONError (msg : string).                       (* an error of encoding/json *)

Global Instance Errno_eq_dec : EqDecision Errno.
Proof. solve_decision. Defined.
Global Instance error_eq_dec : EqDecision error.
Proof. solve_decision. Defined.

(** ** os and io/ioutil over an in-memory tree

    A location is the list of the names on the way from the root of the file
    system, innermost first; the root is [[]] and is always a directory.
    Path names are resolved lexically against the working directory.
    Permissions, quotas, symbolic links and special files are outside the
    model: a call fails only for the shape of the tree. *)

Module os.

Inductive node :=
  | File (data : list byte)
  | Dir.

Global Instance node_eq_dec : EqDecision node.
Proof. solve_decision. Defined.

Record FS := mkFS {
  cwd : list string;
  tree : gmap (list string) node;
}.

Record FileInfo := mkFileInfo {
  Name : string;
  IsDir : bool;
}.

(** [fi.Mode().IsRegular()]: the model has files and directories only. *)
Definition IsRegular (fi : FileInfo) : bool := negb (IsDir fi).

Definition is_dir (n : node) : bool :=
  match n with Dir => true | File _ => false end.

Definition walk (loc : list string) (e : string) : list string :=
  if decide (e = "" ∨ e = ".") then loc
  else if decide (e = "..") then tail loc
  else e :: loc.

Definition locate (fs : FS) (name : string) : list string :=
  fold_left walk (filepath.split name)
    (if filepath.IsAbs name then [] else cwd fs).

Definition node_at (t : gmap (list string) node) (loc : list string)
  : option node :=
  match loc with
  | [] => Some Dir
  | _ => t !! loc
  end.

(** Why nothing is found at [loc]: a file on the way, or a missing name. *)
Fixpoint missing (t : gmap (list string) node) (loc : list string) : Errno :=
  match loc with
  | [] => ENOENT
  | _ :: parent =>
      match node_at t parent with
      | Some (File _) => ENOTDIR
      | Some Dir => ENOENT
      | None => missing t parent
      end
  end.

Definition find (fs : FS) (name : string) : Errno + node :=
  if decide (name = "") then inl ENOENT
  else match node_at (tree fs) (locate fs name) with
       | Some n => inr n
       | None => inl (missing (tree fs) (locate fs name))
       end.

Definition Stat (fs : FS) (name : string) : error + FileInfo :=
  match find fs name with
  | inl e => inl (PathError "stat" name e)
  | inr n => inr (mkFileInfo (hd "/" (locate fs name)) (is_dir n))
  end.

Fixpoint mkdir_all (t : gmap (list string) node) (loc : list string)
  : gmap (list string) node * option Errno :=
  match node_at t loc with
  | Some Dir => (t, None)
  | Some (File _) => (t, Some ENOTDIR)
  | None =>
      match loc with
      | [] => (t, None)
      | _ :: parent =>
          match mkdir_all t parent with
          | (t', Some e) => (t', Some e)
          | (t', None) => (<[loc := Dir]> t', None)
          end
      end
  end.

Definition MkdirAll (fs : FS) (path : string) : FS * option error :=
  if decide (path = "") then (fs, Some (PathError "mkdir" path ENOENT))
  else match mkdir_all (tree fs) (locate fs path) with
       | (t', Some e) => (mkFS (cwd fs) t', Some (PathError "mkdir" path e))
       | (t', None) => (mkFS (cwd fs) t', None)
       end.

(** [ioutil.WriteFile]: create or truncate, then write all of [data]. *)
Definition WriteFile (fs : FS) (filename : string) (data : list byte)
  : FS * option error :=
  if decide (filename = "") then (fs, Some (PathError "open" filename ENOENT))
  else
    let loc := locate fs filename in
    let written := mkFS (cwd fs) (<[loc := File data]> (tree fs)) in
    match node_at (tree fs) loc with
    | Some Dir => (fs, Some (PathError "open" filename EISDIR))
    | Some (File _) => (written, None)
    | None =>
        match node_at (tree fs) (tail loc) with
        | Some Dir => (written, None)
        | _ => (fs, Some (PathError "open" filename (missing (tree fs) loc)))
        end
    end.

Definition ReadFile (fs : FS) (filename : string) : error + list byte :=
  match find fs filename with
  | inl e => inl (PathError "open" filename e)
  | inr Dir => inl (PathError "read" filename EISDIR)
  | inr (File data) => inr data
  end.

(** The names at or beneath [loc]. *)
Definition beneath (loc : list string) (k : list string) : Prop :=
  loc `suffix_of` k.

Definition subtree (loc : list string) (t : gmap (list string) node)
  : gmap (list string) node :=
  filter (λ kn, beneath loc kn.1) t.

Definition prune (loc : list string) (t : gmap (list string) node)
  : gmap (list string) node :=
  filter (λ kn, ¬ beneath loc kn.1) t.

(** The entries directly in the directory at [loc]. *)
Definition children (loc : list string) (t : gmap (list string) node)
  : list (list string * node) :=
  map_to_list (filter (λ kn, kn.1 ≠ [] ∧ tail kn.1 = loc) t).

Definition by_name (a b : FileInfo) : Prop := String.le (Name a) (Name b).

Global Instance by_name_dec : RelDecision by_name.
Proof. intros a b. unfold by_name. apply _. Defined.

Definition entry (kn : list string * node) : FileInfo :=
  mkFileInfo (hd "" kn.1) (is_dir kn.2).

(** [ioutil.ReadDir]: the entries of a directory, sorted by file name. *)
Definition ReadDir (fs : FS) (dirname : string) : error + list FileInfo :=
  match find fs dirname with
  | inl e => inl (PathError "open" dirname e)
  | inr (File _) => inl (PathError "readdirent" dirname ENOTDIR)
  | inr Dir =>
      inr (merge_sort by_name (entry <$> children (locate fs dirname) (tree fs)))
  end.

(** [os.Remove]: a file, or an empty directory. *)
Definition Remove (fs : FS) (name : string) : FS * option error :=
  let loc := locate fs name in
  match find fs name with
  | inl e => (fs, Some (PathError "remove" name e))
  | inr (File _) => (mkFS (cwd fs) (delete loc (tree fs)), None)
  | inr Dir =>
      match loc, children loc (tree fs) with
      | [], _ => (fs, Some (PathError "remove" name EBUSY))
      | _, [] => (mkFS (cwd fs) (delete loc (tree fs)), None)
      | _, _ :: _ => (fs, Some (PathError "remove" name ENOTEMPTY))
      end
  end.

(** [os.RemoveAll]: the path and everything beneath it; no error when the
    path does not exist. *)
Definition RemoveAll (fs : FS) (path : string) : FS * option error :=
  if decide (path = "") then (fs, None)
  else (mkFS (cwd fs) (prune (locate fs path) (tree fs)), None).

(** The entries beneath [old] under their names beneath [new]. *)
Definition moved (old new : list string) (t : gmap (list string) node)
  : gmap (list string) node :=
  list_to_map
    ((λ kn, (take (length kn.1 - length old) kn.1 ++ new, kn.2))
       <$> map_to_list (subtree old t)).

(** [os.Rename]: an existing directory is never replaced; a file replaces
    the file at the new name; a directory moves with all beneath it. *)
Definition Rename (fs : FS) (oldpath newpath : string) : FS * option error :=
  let old := locate fs oldpath in
  let new := locate fs newpath in
  let fail e := (fs, Some (LinkError "rename" oldpath newpath e)) in
  let replaced data :=
    (mkFS (cwd fs) (<[new := File data]> (delete old (tree fs))), None) in
  match find fs oldpath, find fs newpath with
  | inl e, _ => fail e
  | inr _, inr Dir => fail EEXIST
  | inr Dir, inr (File _) => fail ENOTDIR
  | inr (File data), inr (File _) => replaced data
  | inr n, inl _ =>
      if decide (newpath = "") then fail ENOENT
      else match node_at (tree fs) (tail new) with
      | Some Dir =>
          match n with
          | File data => replaced data
          | Dir =>
              if decide (beneath old new) then fail EINVAL
              else (mkFS (cwd fs) (moved old new (tree fs) ∪ prune old (tree fs)), None)
          end
      | _ => fail (missing (tree fs) new)
      end
  end.

End os.

(** ** encoding/json

    The driver is generic in the value it stores: [Write] and [Read] take an
    [interface{}] and leave its shape to encoding/json. A type [V] with an
    instance of [JSON] is a Go type that encoding/json knows how to encode
    and decode. [Unmarshal] fills a container that already holds a value, and
    may have changed it when it fails. *)

Class JSON (V : Type) := {
  MarshalIndent : V → string → string → error + list byte;
  Unmarshal : list byte → V → option error * V;
}.

(** ** The driver (main.go) *)

Definition json_Number := string.

Record Address := mkAddress {
  City : string;
  State : string;
  Country : string;
  Pincode : json_Number;
}.

Record User := mkUser {
  Name : string;
  Age : json_Number;
  Contact : string;
  Company : string;
  Address_ : Address;
}.

(** [var user User]. *)
Definition zero_User : User := mkUser "" "" "" "" (mkAddress "" "" "" "").

(** A [*sync.Mutex] is the address of a mutex; [d.mutex] is the mutex inside
    the driver. *)
Inductive MutexRef :=
  | DriverMutex
  | MutexAt (addr : nat).

Inductive Level := FATAL | ERROR | WARN | INFO | DEBUG | TRACE.

Inductive Logger :=
  | ConsoleLogger (level : Level)   (* lumber.NewConsoleLogger(level) *)
  | CustomLogger (id : nat).        (* a logger supplied in the options *)

Record Options := mkOptions { Logger_ : option Logger }.

(** What a run does besides changing files: calls on mutexes and on the
    logger, oldest first. *)
Inductive Event :=
  | Lock (m : MutexRef)
  | Unlock (m : MutexRef)
  | LogCall (l : Logger) (level : Level) (msg : string).

(** The field [mutex] of the driver holds no data between two calls: the
    calls on it are the events on [DriverMutex], and [concurrent.locked]
    below when goroutines meet inside [getOrCreateMutex]. *)
Record Driver := mkDriver {
  mutexes : gmap string nat;
  dir : string;
  log : Logger;
}.

Record World := mkWorld {
  fs : os.FS;
  allocated : nat;          (* the mutexes made so far live at 0 .. allocated-1 *)
  trace : list Event;
}.

Record St := mkSt { driver : Driver; world : World }.

(** A method of the driver: it runs on the driver and the world, and returns
    a value or an error. *)
Definition M (A : Type) : Type := St → (error + A) * St.

Global Instance M_ret : MRet M := λ A a s, (inr a, s).
Global Instance M_bind : MBind M := λ A B k m s,
  match m s with
  | (inl e, s') => (inl e, s')
  | (inr a, s') => k a s'
  end.

Definition fail {A} (e : error) : M A := λ s, (inl e, s).

Definition emit (ev : Event) (w : World) : World :=
  mkWorld (fs w) (allocated w) (trace w ++ [ev]).

Definition do_event (ev : Event) : M unit :=
  λ s, (inr (), mkSt (driver s) (emit ev (world s))).

(** [defer f()] around the rest of the function body. *)
Definition defer {A} (ev : Event) (body : M A) : M A :=
  λ s, let '(r, s') := body s in (r, mkSt (driver s') (emit ev (world s'))).

Definition this : M Driver := λ s, (inr (driver s), s).

(** A call that reads the file system. *)
Definition os_get {A} (call : os.FS → error + A) : M A :=
  λ s, (call (fs (world s)), s).

(** The same, with the error handed to the caller to inspect. *)
Definition os_try {A} (call : os.FS → error + A) : M (error + A) :=
  λ s, (inr (call (fs (world s))), s).

(** A call that may change the file system and returns an [error]. *)
Definition os_do (call : os.FS → os.FS * option error) : M unit :=
  λ s, let '(fs', err) := call (fs (world s)) in
       let s' := mkSt (driver s) (mkWorld fs' (allocated (world s)) (trace (world s))) in
       match err with
       | Some e => (inl e, s')
       | None => (inr (), s')
       end.

Definition log_call (level : Level) (msg : string) : M unit :=
  λ s, do_event (LogCall (log (driver s)) level msg) s.

(** [&sync.Mutex{}]. *)
Definition new_Mutex : M nat :=
  λ s, let w := world s in
       (inr (allocated w), mkSt (driver s) (mkWorld (fs w) (S (allocated w)) (trace w))).

Definition set_mutexes (m : gmap string nat) : M unit :=
  λ s, (inr (), mkSt (mkDriver m (dir (driver s)) (log (driver s))) (world s)).

Definition tab : string := String (ascii_of_nat 9) EmptyString.
Definition quote : string := String (ascii_of_nat 39) EmptyString.

Definition getOrCreateMutex (collection : string) : M nat :=
  do_event (Lock DriverMutex);;
  defer (Unlock DriverMutex) (
    d ← this;
    match mutexes d !! collection with
    | Some m => mret m
    | None =>
        m ← new_Mutex;
        set_mutexes (<[collection := m]> (mutexes d));;
        mret m
    end).

Definition Write {V} `{JSON V} (collection resource : string) (v : V) : M unit :=
  if decide (collection = "") then
    fail (Errorf "Missing collection - no place to save record!")
  else if decide (resource = "") then
    fail (Errorf "Missing resource - unable to save record (no name)!")
  else
    mutex ← getOrCreateMutex collection;
    do_event (Lock (MutexAt mutex));;
    defer (Unlock (MutexAt mutex)) (
      d ← this;
      let dir := filepath.Join [dir d; collection] in
      let fnlPath := filepath.Join [dir; resource +:+ ".json"] in
      let tmpPath := fnlPath +:+ ".tmp" in
      os_do (λ fs, os.MkdirAll fs dir);;
      b ← (λ s, (MarshalIndent v "" tab, s));
      let b := b ++ [x0a] in
      os_do (λ fs, os.WriteFile fs tmpPath b);;
      os_do (λ fs, os.Rename fs tmpPath fnlPath);;
      log_call INFO ("Successfully wrote data to " +:+ quote +:+ fnlPath +:+ quote +:+ newline)).

(** [Read] returns its error together with the container [v] as the call
    leaves it. *)
Definition Read {V} `{JSON V} (collection resource : string) (v : V)
  : St → (option error * V) * St :=
  λ s,
  if decide (collection = "") then
    ((Some (Errorf "Missing collection - unable to read!"), v), s)
  else if decide (resource = "") then
    ((Some (Errorf "Missing resource - unable to read record (no name)!"), v), s)
  else
    let record := filepath.Join [dir (driver s); collection; resource +:+ ".json"] in
    match os.Stat (fs (world s)) record with
    | inl err => ((Some err, v), s)
    | inr _ =>
        match os.ReadFile (fs (world s)) record with
        | inl err => ((Some err, v), s)
        | inr b => (Unmarshal b v, s)
        end
    end.

(** The loop of [ReadAll] over the directory entries still to visit. *)
Fixpoint ReadAll_range `{JSON User} (dir : string) (files : list os.FileInfo)
    (users : list User) : M (list User) :=
  match files with
  | [] => mret users
  | file :: files' =>
      if os.IsDir file then ReadAll_range dir files' users
      else
        b ← os_get (λ fs, os.ReadFile fs (filepath.Join [dir; os.Name file]));
        match Unmarshal b zero_User with
        | (Some err, _) => fail err
        | (None, user) => ReadAll_range dir files' (users ++ [user])
        end
  end.

Definition ReadAll `{JSON User} (collection : string) : M (list User) :=
  if decide (collection = "") then
    fail (Errorf "Missing collection - unable to read")
  else
    d ← this;
    let dir := filepath.Join [dir d; collection] in
    os_get (λ fs, os.Stat fs dir);;
    files ← os_get (λ fs, os.ReadDir fs dir);
    ReadAll_range dir files [].

Definition Delete (collection resource : string) : M unit :=
  let path := filepath.Join [collection; resource] in
  mutex ← getOrCreateMutex collection;
  do_event (Lock (MutexAt mutex));;
  defer (Unlock (MutexAt mutex)) (
    d ← this;
    let dir := filepath.Join [dir d; path] in
    st ← os_try (λ fs, os.Stat fs dir);
    match st with
    | inl _ =>
        fail (Errorf ("unable to find file or directory named " +:+ path +:+ newline))
    | inr fi =>
        if os.IsDir fi then os_do (λ fs, os.RemoveAll fs dir)
        else if os.IsRegular fi then os_do (λ fs, os.Remove fs (dir +:+ ".json"))
        else mret ()
    end).

(** [New] returns the driver and the error side by side. *)
Definition New (dir : string) (options : option Options) (w : World)
  : (Driver * option error) * World :=
  let dir := filepath.Clean dir in
  let logger :=
    match options with
    | Some (mkOptions (Some l)) => l
    | _ => ConsoleLogger INFO
    end in
  let driver := mkDriver ∅ dir logger in
  match os.Stat (fs w) dir with
  | inr _ =>
      let w := emit (LogCall logger DEBUG
                 ("Using " +:+ quote +:+ dir +:+ quote +:+ " (database already exists)" +:+ newline)) w in
      ((driver, None), w)
  | inl _ =>
      let w := emit (LogCall logger DEBUG
                 ("Creating the database at " +:+ quote +:+ dir +:+ quote +:+ "..." +:+ newline)) w in
      let '(fs', err) := os.MkdirAll (fs w) dir in
      ((driver, err), mkWorld fs' (allocated w) (trace w))
  end.

(** ** A codec for [User]

    For running the driver on concrete records: the text encoding/json
    writes for a [User] whose strings need no escaping, with the checks of
    encoding/json on a [json.Number], and a reader of the texts of that
    layout. The properties of the driver below hold for every instance of
    [JSON]; this one serves the examples. *)

Module userjson.

Definition dq : string := String (ascii_of_nat 34) EmptyString.

Definition is_digit (a : ascii) : bool :=
  (48 <=? nat_of_ascii a) && (nat_of_ascii a <=? 57).

Fixpoint digits (s : string) : string :=
  match s with
  | String a s' => if is_digit a then digits s' else s
  | EmptyString => s
  end.

(** encoding/json's [isValidNumber]. *)
Definition isValidNumber (s : string) : bool :=
  let after_sign :=
    match s with String "-" s' => s' | _ => s end in
  let after_int :=
    match after_sign with
    | String "0" s' => Some s'
    | String a s' => if is_digit a then Some (digits s') else None
    | EmptyString => None
    end in
  match after_int with
  | None => false
  | Some s1 =>
      let s2 :=
        match s1 with
        | String "." (String a s') => if is_digit a then digits s' else s1
        | _ => s1
        end in
      match s2 with
      | EmptyString => true
      | String e s3 =>
          if bool_decide (e = "e"%char ∨ e = "E"%char) then
            match s3 with
            | EmptyString => false
            | String sg s4 =>
                let s5 := if bool_decide (sg = "+"%char ∨ sg = "-"%char) then s4 else s3 in
                match s5 with
                | EmptyString => false
                | _ => bool_decide (digits s5 = "")
                end
            end
          else false
      end
  end.

(** The characters encoding/json copies into a string literal as they are. *)
Definition plain (a : ascii) : bool :=
  let n := nat_of_ascii a in
  (32 <=? n) && (n <=? 126)
  && negb (bool_decide (a ∈ [ascii_of_nat 34; "\"; "<"; ">"; "&"]%char)).

Fixpoint all_plain (s : string) : bool :=
  match s with
  | String a s' => plain a && all_plain s'
  | EmptyString => true
  end.

Definition encode_string (s : string) : error + string :=
  if all_plain s then inr (dq +:+ s +:+ dq)
  else inl (JSONError "json: string outside the fragment of this codec").

Definition encode_Number (n : json_Number) : error + string :=
  if decide (n = "") then inr "0"
  else if isValidNumber n then inr n
  else inl (JSONError ("json: invalid number literal " +:+ dq +:+ n +:+ dq)).

Definition field (margin key : string) (value : error + string)
  : error + string :=
  match value with
  | inl e => inl e
  | inr text => inr (margin +:+ dq +:+ key +:+ dq +:+ ": " +:+ text)
  end.

(** The members of an object, one per line, between braces. *)
Fixpoint members (fields : list (error + string)) : error + string :=
  match fields with
  | [] => inr ""
  | f :: rest =>
      match f, members rest with
      | inl e, _ => inl e
      | _, inl e => inl e
      | inr line, inr lines =>
          inr (match rest with
               | [] => line +:+ newline
               | _ => line +:+ "," +:+ newline +:+ lines
               end)
      end
  end.

Definition object (margin : string) (fields : list (error + string))
  : error + string :=
  match members fields with
  | inl e => inl e
  | inr lines => inr ("{" +:+ newline +:+ lines +:+ margin +:+ "}")
  end.

Definition encode_Address (prefix indent : string) (a : Address)
  : error + string :=
  let m1 := prefix +:+ indent in
  let m2 := m1 +:+ indent in
  object m1
    [ field m2 "City" (encode_string (City a));
      field m2 "State" (encode_string (State a));
      field m2 "Country" (encode_string (Country a));
      field m2 "Pincode" (encode_Number (Pincode a)) ].

Definition encode_User (prefix indent : string) (u : User) : error + string :=
  let m1 := prefix +:+ indent in
  object prefix
    [ field m1 "Name" (encode_string (Name u));
      field m1 "Age" (encode_Number (Age u));
      field m1 "Contact" (encode_string (Contact u));
      field m1 "Company" (encode_string (Company u));
      field m1 "Address" (encode_Address prefix indent (Address_ u)) ].

(** Reading: tokens separated by JSON white space. *)
Definition is_space (a : ascii) : bool :=
  bool_decide (nat_of_ascii a ∈ [32; 9; 10; 13]).

Fixpoint skip_space (s : string) : string :=
  match s with
  | String a s' => if is_space a then skip_space s' else s
  | EmptyString => s
  end.

Fixpoint expect (lit s : string) : option string :=
  match lit, s with
  | EmptyString, _ => Some s
  | String a lit', String b s' => if decide (a = b) then expect lit' s' else None
  | String _ _, EmptyString => None
  end.

Definition token (lit s : string) : option string := expect lit (skip_space s).

Fixpoint to_quote (s : string) : option (string * string) :=
  match s with
  | EmptyString => None
  | String a s' =>
      if decide (String a "" = dq) then Some ("", s')
      else if plain a then
        '(text, rest) ← to_quote s'; Some (String a text, rest)
      else None
  end.

Definition string_literal (s : string) : option (string * string) :=
  s' ← token dq s; to_quote s'.

Definition is_number_char (a : ascii) : bool :=
  is_digit a || bool_decide (a ∈ ["-"; "+"; "."; "e"; "E"]%char).

Fixpoint number_text (s : string) : string * string :=
  match s with
  | String a s' =>
      if is_number_char a then
        let '(text, rest) := number_text s' in (String a text, rest)
      else ("", s)
  | EmptyString => ("", s)
  end.

Definition number_literal (s : string) : option (string * string) :=
  let '(text, rest) := number_text (skip_space s) in
  if isValidNumber text then Some (text, rest) else None.

Definition key (name s : string) : option string :=
  '(k, s') ← string_literal s;
  if decide (k = name) then token ":" s' else None.

Definition decode_Address (s : string) : option (Address * string) :=
  s ← token "{" s;
  s ← key "City" s; '(city, s) ← string_literal s; s ← token "," s;
  s ← key "State" s; '(state, s) ← string_literal s; s ← token "," s;
  s ← key "Country" s; '(country, s) ← string_literal s; s ← token "," s;
  s ← key "Pincode" s; '(pincode, s) ← number_literal s;
  s ← token "}" s;
  Some (mkAddress city state country pincode, s).

Definition decode_User (s : string) : option User :=
  s ← token "{" s;
  s ← key "Name" s; '(name, s) ← string_literal s; s ← token "," s;
  s ← key "Age" s; '(age, s) ← number_literal s; s ← token "," s;
  s ← key "Contact" s; '(contact, s) ← string_literal s; s ← token "," s;
  s ← key "Company" s; '(company, s) ← string_literal s; s ← token "," s;
  s ← key "Address" s; '(address, s) ← decode_Address s;
  s ← token "}" s;
  if decide (skip_space s = "") then Some (mkUser name age contact company address)
  else None.

Global Instance User_JSON : JSON User := {|
  MarshalIndent u prefix indent :=
    match encode_User prefix indent u with
    | inl e => inl e
    | inr text => inr (String.list_byte_of_string text)
    end;
  Unmarshal b u :=
    match decode_User (String.string_of_list_byte b) with
    | Some u' => (None, u')
    | None => (Some (JSONError "json: cannot unmarshal into Go value of type main.User"), u)
    end;
|}.

End userjson.

(** ** [getOrCreateMutex] under concurrent callers

    The body of [getOrCreateMutex] cut at its accesses to shared memory, for
    any number of goroutines that call it on one driver and any schedule. *)

Module concurrent.

(** Where a goroutine stands in [getOrCreateMutex(collection)]. *)
Inductive Point :=
  | Called                    (* before d.mutex.Lock() *)
  | Holding                   (* d.mutex is held *)
  | Looked (m : option nat)   (* after m, ok := d.mutexes[collection] *)
  | Made (m : nat)            (* after m = &sync.Mutex{} *)
  | Has (m : nat)             (* m is the entry of the map *)
  | Returned (m : nat).       (* the deferred d.mutex.Unlock() ran *)

Record Goroutine := mkGoroutine { collection : string; point : Point }.

(** [d.mutex], [d.mutexes], and the mutexes made so far. *)
Record Shared := mkShared {
  locked : bool;
  mutexes : gmap string nat;
  allocated : nat;
}.

(** The next access of a goroutine; [None] when it waits for [d.mutex] or
    has returned. *)
Definition advance (sh : Shared) (g : Goroutine)
  : option (Shared * Goroutine) :=
  let c := collection g in
  match point g with
  | Called =>
      if locked sh then None
      else Some (mkShared true (mutexes sh) (allocated sh), mkGoroutine c Holding)
  | Holding => Some (sh, mkGoroutine c (Looked (mutexes sh !! c)))
  | Looked (Some m) => Some (sh, mkGoroutine c (Has m))
  | Looked None =>
      Some (mkShared (locked sh) (mutexes sh) (S (allocated sh)),
            mkGoroutine c (Made (allocated sh)))
  | Made m =>
      Some (mkShared (locked sh) (<[c := m]> (mutexes sh)) (allocated sh),
            mkGoroutine c (Has m))
  | Has m =>
      Some (mkShared false (mutexes sh) (allocated sh), mkGoroutine c (Returned m))
  | Returned _ => None
  end.

Definition Config : Type := Shared * list Goroutine.

(** Goroutine [i] takes its next step. *)
Definition schedule (i : nat) (cfg : Config) : option Config :=
  g ← cfg.2 !! i;
  '(sh', g') ← advance cfg.1 g;
  Some (sh', <[i := g']> cfg.2).

Fixpoint run (sched : list nat) (cfg : Config) : option Config :=
  match sched with
  | [] => Some cfg
  | i :: sched' => cfg' ← schedule i cfg; run sched' cfg'
  end.

(** Every goroutine is about to call, and [d.mutex] is free. *)
Definition initial (cfg : Config) : Prop :=
  locked cfg.1 = false ∧ Forall (λ g, point g = Called) cfg.2.

Definition critical (g : Goroutine) : Prop :=
  match point g with
  | Called | Returned _ => False
  | _ => True
  end.

End concurrent.

(** ** Calls on a driver *)

(** A call of one of the methods of the driver, with its arguments. *)
Inductive Call :=
  | CallWrite (collection resource : string) (v : User)
  | CallRead (collection resource : string) (v : User)
  | CallReadAll (collection : string)
  | CallDelete (collection resource : string)
  | CallGetOrCreateMutex (collection : string).

(** The state a call leaves. *)
Definition after `{JSON User} (s : St) (call : Call) : St :=
  match call with
  | CallWrite collection resource v => (Write collection resource v s).2
  | CallRead collection resource v => (Read collection resource v s).2
  | CallReadAll collection => (ReadAll collection s).2
  | CallDelete collection resource => (Delete collection resource s).2
  | CallGetOrCreateMutex collection => (getOrCreateMutex collection s).2
  end.

(** The driver as the goroutines inside [getOrCreateMutex] see it. *)
Definition shared (s : St) : concurrent.Shared :=
  concurrent.mkShared false (mutexes (driver s)) (allocated (world s)).

(** ** Notions of the properties *)

(** An element: a string without separator. *)
Definition is_elem (e : string) : Prop := filepath.split e = [e].

(** A name a directory entry can have. *)
Definition is_name (e : string) : Prop :=
  is_elem e ∧ e ≠ "" ∧ e ≠ "." ∧ e ≠ "..".

(** The elements kept by [clean_step] are stable: cleaning them again
    keeps every one of them. *)
Fixpoint kept_ok (rooted : bool) (kept : list string) : Prop :=
  match kept with
  | [] => True
  | e :: kept' => filepath.clean_step rooted kept' e = e :: kept' ∧ kept_ok rooted kept'
  end.


(** An entry the loop gets past: a directory, or a file that decodes. *)
Definition passes `{JSON User} (s : St) (dir : string) (file : os.FileInfo) : Prop :=
  os.IsDir file = true ∨
  ∃ b user,
    os.ReadFile (fs (world s)) (filepath.Join [dir; os.Name file]) = inr b ∧
    Unmarshal b zero_User = (None, user).

(** The error of [Delete] for a path it does not find. *)
Definition not_found (path : string) : error :=
  Errorf ("unable to find file or directory named " +:+ path +:+ newline).

(** What a goroutine knows of the map agrees with the map. *)
Definition agrees (sh : concurrent.Shared) (g : concurrent.Goroutine) : Prop :=
  match concurrent.point g with
  | concurrent.Called | concurrent.Holding => True
  | concurrent.Looked m =>
      concurrent.mutexes sh !! concurrent.collection g = m
  | concurrent.Made _ =>
      concurrent.mutexes sh !! concurrent.collection g = None
  | concurrent.Has m | concurrent.Returned m =>
      concurrent.mutexes sh !! concurrent.collection g = Some m
  end.

(** [d.mutex] is held whenever a goroutine is between [Lock] and [Unlock],
    at most one goroutine is, and every goroutine agrees with the map. *)
Definition exclusive (cfg : concurrent.Config) : Prop :=
  (∀ i g, cfg.2 !! i = Some g → concurrent.critical g →
          concurrent.locked cfg.1 = true) ∧
  (∀ i j gi gj, cfg.2 !! i = Some gi → cfg.2 !! j = Some gj →
                concurrent.critical gi → concurrent.critical gj → i = j) ∧
  (∀ i g, cfg.2 !! i = Some g → agrees cfg.1 g).

(** ** The run of [main]

    The first two records of [main], a working directory [/home/work] with
    nothing in it, and the driver that [New("./Users", nil)] returns there. *)

Definition Kamo : User :=
  mkUser "Kamo" "23" "23344333" "RemoteKamo"
    (mkAddress "Pretoria" "Central" "South Africa" "410013").

Definition Kamzo : User :=
  mkUser "Kamzo" "25" "23344333" "RemoteKamzo"
    (mkAddress "Cape Town" "Central" "South Africa" "410013").

Definition workdir : World :=
  mkWorld
    (os.mkFS ["work"; "home"]
       (<[ ["work"; "home"] := os.Dir ]> (<[ ["home"] := os.Dir ]> ∅)))
    0 [].

Definition started : St :=
  let '((d, _), w) := New "./Users" None workdir in mkSt d w.

(** After [db.Write("users", "Kamo", Kamo)], and then
    [db.Write("users", "Kamzo", Kamzo)]. *)
Definition with_Kamo : St := (Write "users" "Kamo" Kamo started).2.
Definition with_both : St := (Write "users" "Kamzo" Kamzo with_Kamo).2.

(** A record that encoding/json refuses: its age is not a number. *)
Definition Zed : User :=
  mkUser "Zed" "abc" "" "" (mkAddress "" "" "" "").

(** After [db.Write("users", "Zed", Zed)] on the new database. *)
Definition with_failed_Zed : St := (Write "users" "Zed" Zed started).2.

(** The collection of [with_Kamo] with a subdirectory [Archive] and a file
    [Zed.json] that is not JSON, both made behind the back of the driver. *)
Definition with_garbage : St :=
  let fs1 := (os.MkdirAll (fs (world with_Kamo)) "Users/users/Archive").1 in
  let fs2 := (os.WriteFile fs1 "Users/users/Zed.json"
                (String.list_byte_of_string "Zed")).1 in
  mkSt (driver with_Kamo)
    (mkWorld fs2 (allocated (world with_Kamo)) (trace (world with_Kamo))).


(** The text of [Kamo.json]. *)
Definition Kamo_json : list byte :=
  match MarshalIndent Kamo "" tab with
  | inr b => b ++ [x0a]
  | inl _ => []
  end.

Definition invalid_number (n : string) : error :=
  JSONError ("json: invalid number literal " +:+ userjson.dq +:+ n +:+ userjson.dq).

(** ** Notions of the further properties *)

(** The contents of the entry [file] of the directory [dir] decode to
    [user]. *)
Definition decodes_to `{JSON User} (s : St) (dir : string)
    (file : os.FileInfo) (user : User) : Prop :=
  ∃ b,
    os.ReadFile (fs (world s)) (filepath.Join [dir; os.Name file]) = inr b ∧
    Unmarshal b zero_User = (None, user).

(** [l] with [suffix] appended to its last string. *)
Fixpoint app_last (l : list string) (suffix : string) : list string :=
  match l with
  | [] => []
  | [x] => [x +:+ suffix]
  | x :: l' => x :: app_last l' suffix
  end.

(** The text of [Kamzo.json]. *)
Definition Kamzo_json : list byte :=
  match MarshalIndent Kamzo "" tab with
  | inr b => b ++ [x0a]
  | inl _ => []
  end.

(** * Properties *)

(** ** Strings *)

Lemma app_cons (a : ascii) (s t : string) : String a s +:+ t = String a (s +:+ t).
Proof. reflexivity. Qed.

Lemma app_nil_l (t : string) : "" +:+ t = t.
Proof. reflexivity. Qed.

Lemma app_nil_r (s : string) : s +:+ "" = s.
Proof. induction s as [|a s IH]; [done|]. by rewrite app_cons, IH. Qed.

Lemma app_assoc (a b c : string) : (a +:+ b) +:+ c = a +:+ b +:+ c.
Proof. induction a as [|x a IH]; [done|]. by rewrite !app_cons, IH. Qed.

Lemma app_eq_nil (a b : string) : a +:+ b = "" → a = "" ∧ b = "".
Proof. destruct a; [done|]. by rewrite app_cons. Qed.

Example Clean_ex1 : filepath.Clean "./Users" = "Users".
Proof. reflexivity. Qed.
Example Clean_ex2 : filepath.Clean "a//b/./c/../d/" = "a/b/d".
Proof. reflexivity. Qed.
Example Clean_ex3 : filepath.Clean "/../a/.." = "/".
Proof. reflexivity. Qed.
Example Clean_ex4 : filepath.Clean "a/../../b" = "../b".
Proof. reflexivity. Qed.
Example Join_ex1 : filepath.Join ["Users"; "users"; "Kamo.json"] = "Users/users/Kamo.json".
Proof. reflexivity. Qed.
Example Join_ex2 : filepath.Join [""; ""] = "".
Proof. reflexivity. Qed.
Example Join_ex3 : filepath.Join ["a"; ""] = "a".
Proof. reflexivity. Qed.


(** *** Facts about [split], [join] and [Clean] *)

Module filepath_facts.
Import filepath.


Lemma split_nonempty (s : string) : split s ≠ [].
Proof.
  destruct s as [|a s]; simpl; [done|].
  case_decide; [done|]. by destruct (split s).
Qed.

Lemma split_app (s x : string) :
  split (s +:+ "/" +:+ x) = split s ++ split x.
Proof.
  induction s as [|a s IH]; [done|].
  rewrite app_cons. simpl. case_decide; [by rewrite IH|].
  rewrite IH. pose proof (split_nonempty s). by destruct (split s).
Qed.

Lemma split_elems (s : string) : Forall is_elem (split s).
Proof.
  induction s as [|a s IH]; simpl; [by repeat constructor|].
  case_decide; [by constructor|].
  destruct (split s) as [|c cs] eqn:E; [by exfalso; eapply split_nonempty|].
  inversion_clear IH as [|?? Hc Hcs]. constructor; [|done].
  unfold is_elem in *. simpl. case_decide; [done|]. by rewrite Hc.
Qed.

Lemma split_join (l : list string) :
  l ≠ [] → Forall is_elem l → split (join l) = l.
Proof.
  induction l as [|e l IH]; [done|]. intros _ Hl.
  inversion_clear Hl as [|?? He Hl']. destruct l as [|e' l]; [done|].
  change (join (e :: e' :: l)) with (e +:+ "/" +:+ join (e' :: l)).
  rewrite split_app, He, IH; done.
Qed.

Lemma is_elem_not_abs (e : string) : is_elem e → e ≠ "" → IsAbs e = false.
Proof.
  unfold is_elem. destruct e as [|a e]; [done|]. simpl. intros H _.
  case_decide; [|by rewrite bool_decide_eq_false].
  pose proof (split_nonempty e). simplify_eq.
Qed.

Lemma IsAbs_app (s x : string) : s ≠ "" → IsAbs (s +:+ x) = IsAbs s.
Proof. by destruct s. Qed.


Lemma cons_ne {A} (x : A) (l : list A) : l ≠ x :: l.
Proof. intros H. apply (f_equal length) in H. simpl in H. lia. Qed.

Lemma kept_ok_head rooted e kept :
  kept_ok rooted (e :: kept) → e ≠ "" ∧ e ≠ ".".
Proof.
  intros [H _]. unfold clean_step in H.
  case_decide as Hs; [by apply cons_ne in H|]. tauto.
Qed.

Lemma clean_step_ok rooted kept e :
  kept_ok rooted kept → kept_ok rooted (clean_step rooted kept e).
Proof.
  intros Hk. unfold clean_step at 1.
  case_decide as Hs; [done|]. case_decide as Hd.
  - subst e. destruct kept as [|top kept'].
    + destruct rooted; [done|]. by split.
    + case_decide as Ht; [|by destruct Hk].
      split; [|done]. unfold clean_step.
      rewrite decide_False by done. rewrite decide_True by done.
      by rewrite decide_True.
  - split; [|done]. unfold clean_step.
    by rewrite decide_False, decide_False.
Qed.

Lemma fold_clean_ok rooted es kept :
  kept_ok rooted kept → kept_ok rooted (fold_left (clean_step rooted) es kept).
Proof.
  revert kept. induction es as [|e es IH]; intros kept Hk; [done|].
  simpl. by apply IH, clean_step_ok.
Qed.

Lemma fold_clean_kept rooted kept :
  kept_ok rooted kept → fold_left (clean_step rooted) (rev kept) [] = kept.
Proof.
  induction kept as [|e kept IH]; [done|]. intros [He Hk].
  simpl. rewrite fold_left_app. simpl. by rewrite IH.
Qed.

Lemma fold_clean_elems rooted es kept :
  Forall is_elem es → Forall is_elem kept →
  Forall is_elem (fold_left (clean_step rooted) es kept).
Proof.
  revert kept. induction es as [|e es IH]; intros kept Hes Hk; [done|].
  inversion_clear Hes as [|?? He Hes']. simpl. apply IH; [done|].
  unfold clean_step. repeat case_decide; try done.
  - destruct kept as [|top kept']; [|case_decide].
    + destruct rooted; by repeat constructor.
    + by constructor.
    + by inversion Hk.
  - by constructor.
Qed.

Lemma kept_ok_all rooted kept :
  kept_ok rooted kept → Forall (λ e, e ≠ "" ∧ e ≠ ".") kept.
Proof.
  induction kept as [|e kept IH]; [done|]. intros Hk.
  constructor; [by eapply kept_ok_head|]. apply IH, Hk.
Qed.

Lemma Clean_eq (s : string) :
  s ≠ "" → Clean s = render (IsAbs s) (clean_elems (IsAbs s) (split s)).
Proof. by destruct s. Qed.

Lemma join_cons_nonempty e l : e ≠ "" → join (e :: l) ≠ "".
Proof.
  intros He. destruct l as [|e' l]; [done|].
  change (join (e :: e' :: l)) with (e +:+ "/" +:+ join (e' :: l)).
  intros [? _]%app_eq_nil. done.
Qed.

Lemma IsAbs_join e l : e ≠ "" → IsAbs (join (e :: l)) = IsAbs e.
Proof.
  intros He. destruct l as [|e' l]; [done|].
  change (join (e :: e' :: l)) with (e +:+ "/" +:+ join (e' :: l)).
  by apply IsAbs_app.
Qed.

Section render.
Context (rooted : bool) (kept : list string).
Hypothesis Hok : kept_ok rooted kept.
Hypothesis Hel : Forall is_elem kept.

Lemma render_nonempty : render rooted (rev kept) ≠ "".
Proof using Hok Hel.
  unfold render. destruct rooted; [done|].
  destruct (rev kept) as [|e l] eqn:E; [done|].
  apply join_cons_nonempty.
  apply kept_ok_all in Hok. rewrite Forall_forall in Hok.
  apply (Hok e). rewrite list_elem_of_In, in_rev, E. by left.
Qed.

Lemma IsAbs_render : IsAbs (render rooted (rev kept)) = rooted.
Proof using Hok Hel.
  unfold render. destruct rooted; [done|].
  destruct (rev kept) as [|e l] eqn:E; [done|].
  assert (e ∈ kept) as He.
  { rewrite list_elem_of_In, in_rev, E. by left. }
  apply kept_ok_all in Hok. rewrite Forall_forall in Hok, Hel.
  rewrite IsAbs_join by (by apply Hok).
  apply is_elem_not_abs; [by apply Hel | by apply Hok].
Qed.

Lemma fold_split_render {A : Type} (f : A → string → A) (k0 : A) :
  (∀ x, f x "" = x) → (∀ x, f x "." = x) →
  fold_left f (split (render rooted (rev kept))) k0 = fold_left f (rev kept) k0.
Proof using Hok Hel.
  intros Hempty Hdot.
  assert (Forall is_elem (rev kept)) as Hel'.
  { rewrite Forall_forall in *. intros e He. apply Hel.
    by rewrite list_elem_of_In, in_rev, <-list_elem_of_In. }
  unfold render. destruct rooted.
  - change (split ("/" +:+ ?j)) with ("" :: split j).
    destruct (rev kept) as [|e l] eqn:E; [simpl; by rewrite !Hempty|].
    rewrite split_join by done. simpl. by rewrite Hempty.
  - destruct (rev kept) as [|e l] eqn:E; [simpl; by rewrite Hdot|].
    by rewrite split_join.
Qed.
End render.

Lemma Clean_nonempty (s : string) : Clean s ≠ "".
Proof.
  destruct (decide (s = "")) as [->|Hs]; [done|].
  rewrite Clean_eq by done. unfold clean_elems.
  apply render_nonempty; [by apply fold_clean_ok|].
  apply fold_clean_elems; [apply split_elems | done].
Qed.

(** Cleaning is compositional: a cleaned prefix can stand for the prefix. *)
Lemma Clean_app (s x : string) :
  s ≠ "" → Clean (Clean s +:+ "/" +:+ x) = Clean (s +:+ "/" +:+ x).
Proof.
  intros Hs.
  assert (∀ t u, t ≠ "" → t +:+ u ≠ "") as Hne.
  { intros t u Ht [? _]%app_eq_nil. done. }
  rewrite (Clean_eq (Clean s +:+ _)) by apply Hne, Clean_nonempty.
  rewrite (Clean_eq (s +:+ _)) by by apply Hne.
  rewrite !IsAbs_app by (done || apply Clean_nonempty).
  rewrite (Clean_eq s) by done. unfold clean_elems.
  set (r := IsAbs s). set (k := fold_left (clean_step r) (split s) []).
  assert (kept_ok r k) as Hok by by apply fold_clean_ok.
  assert (Forall is_elem k) as Hel.
  { apply fold_clean_elems; [apply split_elems | done]. }
  rewrite IsAbs_render by done.
  rewrite !split_app, !fold_left_app.
  rewrite fold_split_render by done.
  rewrite fold_clean_kept by done. done.
Qed.

(** [Join] may be applied in stages, as [Write] does for the collection
    directory and then the record file. *)
Lemma Join_assoc (a b x : string) : Join [Join [a; b]; x] = Join [a; b; x].
Proof.
  simpl. destruct (decide (a = "")) as [->|Ha].
  - destruct (decide (b = "")) as [->|Hb]; [done|].
    rewrite decide_False by apply Clean_nonempty.
    by apply Clean_app.
  - rewrite decide_False by apply Clean_nonempty.
    rewrite Clean_app; [by rewrite app_assoc|].
    intros [? _]%app_eq_nil. done.
Qed.





End filepath_facts.


(** ** The file system *)

Module os_facts.
Import os.

Lemma node_at_cons t e loc : node_at t (e :: loc) = t !! (e :: loc).
Proof. reflexivity. Qed.

Lemma node_at_None t loc : node_at t loc = None → loc ≠ [].
Proof. by destruct loc. Qed.

Lemma node_at_File t loc data : node_at t loc = Some (File data) → loc ≠ [].
Proof. by destruct loc. Qed.

Lemma node_at_lookup t loc : loc ≠ [] → node_at t loc = t !! loc.
Proof. by destruct loc. Qed.

Lemma find_inr fs name n :
  find fs name = inr n ↔ name ≠ "" ∧ node_at (tree fs) (locate fs name) = Some n.
Proof.
  unfold find. destruct (decide (name = "")) as [Hn|Hn]; [intuition congruence|].
  destruct (node_at _ _); intuition congruence.
Qed.

Lemma find_inl fs name e :
  find fs name = inl e → name = "" ∨ node_at (tree fs) (locate fs name) = None.
Proof.
  unfold find. destruct (decide (name = "")) as [Hn|Hn]; [intuition congruence|].
  destruct (node_at _ _); intuition congruence.
Qed.

Lemma Stat_inr fs name fi :
  Stat fs name = inr fi →
  ∃ n, find fs name = inr n ∧ IsDir fi = is_dir n.
Proof.
  unfold Stat. destruct (find fs name) as [e|n]; [done|].
  intros [= <-]. by exists n.
Qed.


Lemma ReadFile_inr fs name data :
  ReadFile fs name = inr data ↔ find fs name = inr (File data).
Proof.
  unfold ReadFile. destruct (find fs name) as [e|[d|]]; intuition congruence.
Qed.

(** A successful [WriteFile] leaves a file with exactly the data. *)
Lemma WriteFile_ok fs name data fs' :
  WriteFile fs name data = (fs', None) →
  name ≠ "" ∧ locate fs name ≠ [] ∧
  fs' = mkFS (cwd fs) (<[locate fs name := File data]> (tree fs)).
Proof.
  unfold WriteFile. case_decide as Hn; [done|].
  destruct (node_at (tree fs) (locate fs name)) as [[d|]|] eqn:E; [|done|].
  - intros [= <-]. eauto using node_at_File.
  - destruct (node_at (tree fs) (tail _)) as [[|]|]; [done| |done].
    intros [= <-]. eauto using node_at_None.
Qed.

Lemma WriteFile_find fs name data fs' :
  WriteFile fs name data = (fs', None) → find fs' name = inr (File data).
Proof.
  intros (Hn & Hloc & ->)%WriteFile_ok. apply find_inr. split; [done|].
  simpl. change (locate (mkFS _ _) name) with (locate fs name).
  rewrite node_at_lookup by done. apply lookup_insert_eq.
Qed.

(** A failed [WriteFile] changes nothing. *)
Lemma WriteFile_error fs name data fs' e :
  WriteFile fs name data = (fs', Some e) → fs' = fs.
Proof.
  unfold WriteFile. case_decide; [by intros [= <-]|].
  destruct (node_at (tree fs) (locate fs name)) as [[d|]|];
    [done|by intros [= <-]|].
  destruct (node_at (tree fs) (tail _)) as [[|]|]; (done || by intros [= <-]).
Qed.

(** A successful [Rename] of a file leaves its data at the new name. *)
Lemma Rename_file_ok fs old new data fs' :
  find fs old = inr (File data) →
  Rename fs old new = (fs', None) →
  new ≠ "" ∧ locate fs new ≠ [] ∧
  fs' = mkFS (cwd fs)
          (<[locate fs new := File data]> (delete (locate fs old) (tree fs))).
Proof.
  intros Hold. unfold Rename. rewrite Hold.
  destruct (find fs new) as [e|[d|]] eqn:Hnew; [| |done].
  - case_decide as Hn; [done|].
    apply find_inl in Hnew as [?|Hnew]; [done|].
    destruct (node_at (tree fs) (tail _)) as [[|]|]; [done| |done].
    intros [= <-]. eauto using node_at_None.
  - apply find_inr in Hnew as [Hn Hnew].
    intros [= <-]. eauto using node_at_File.
Qed.

Lemma Rename_file_find fs old new data fs' :
  find fs old = inr (File data) →
  Rename fs old new = (fs', None) →
  find fs' new = inr (File data).
Proof.
  intros Hold (Hn & Hloc & ->)%(Rename_file_ok _ _ _ _ _ Hold).
  apply find_inr. split; [done|].
  simpl. change (locate (mkFS _ _) new) with (locate fs new).
  rewrite node_at_lookup by done. apply lookup_insert_eq.
Qed.

Lemma Rename_error fs old new fs' e :
  Rename fs old new = (fs', Some e) → fs' = fs.
Proof.
  unfold Rename.
  repeat (case_match; try done); by intros [= <-].
Qed.

(** [mkdir_all] only adds directories: each on the way to [loc], each with a
    directory for a parent; when it succeeds, [loc] is a directory. *)
Lemma mkdir_all_spec t loc t' r :
  mkdir_all t loc = (t', r) →
  (∀ k, t' !! k = t !! k ∨
        (t !! k = None ∧ t' !! k = Some Dir ∧ k `suffix_of` loc ∧
         node_at t' (tail k) = Some Dir)) ∧
  (r = None → node_at t' loc = Some Dir).
Proof.
  revert t' r. induction loc as [|e parent IH]; intros t' r.
  { simpl. intros [= <- <-]. split; [by left | done]. }
  simpl. destruct (t !! (e :: parent)) as [[d|]|] eqn:E.
  - intros [= <- <-]. split; [by left | done].
  - intros [= <- <-]. split; [by left | done].
  - destruct (mkdir_all t parent) as [t1 [err|]] eqn:Hp;
      destruct (IH _ _ eq_refl) as [Hadd Hdir]; intros [= <- <-].
    + split; [|done]. intros k. destruct (Hadd k) as [?|(?&?&?&?)]; [by left|].
      right. split_and!; try done. by apply suffix_cons_r.
    + specialize (Hdir eq_refl).
      assert (parent ≠ e :: parent) as Hne by apply filepath_facts.cons_ne.
      split; [|by rewrite lookup_insert_eq].
      intros k. destruct (decide (k = e :: parent)) as [->|Hk].
      * right. rewrite lookup_insert_eq. split_and!; try done. simpl.
        destruct parent; [done|]. by rewrite node_at_cons, lookup_insert_ne.
      * rewrite lookup_insert_ne by done.
        destruct (Hadd k) as [?|(?&?&Hsuf&Hpar)]; [by left|].
        right. split_and!; try done; [by apply suffix_cons_r|].
        destruct (tail k) as [|e' k'] eqn:Ek; [done|].
        rewrite node_at_cons, lookup_insert_ne; [done|].
        intros Heq. apply suffix_length in Hsuf.
        destruct k as [|x k0]; simplify_eq/=. lia.
Qed.

Lemma MkdirAll_spec fs path fs' err :
  MkdirAll fs path = (fs', err) →
  cwd fs' = cwd fs ∧
  (∀ k, tree fs' !! k = tree fs !! k ∨
        (tree fs !! k = None ∧ tree fs' !! k = Some Dir ∧
         k `suffix_of` locate fs path ∧ node_at (tree fs') (tail k) = Some Dir)) ∧
  (err = None → find fs' path = inr Dir).
Proof.
  unfold MkdirAll. destruct (decide (path = "")) as [Hp|Hp].
  { intros [= <- <-]. split_and!; [done|by left|done]. }
  destruct (mkdir_all (tree fs) (locate fs path)) as [t' [e|]] eqn:E;
    destruct (mkdir_all_spec _ _ _ _ E) as [Hadd Hdir]; intros [= <- <-].
  - done.
  - split_and!; [done|done|]. intros _. apply find_inr. split; [done|].
    by apply Hdir.
Qed.

(** [MkdirAll] neither makes nor changes a file. *)
Lemma MkdirAll_files fs path fs' err :
  MkdirAll fs path = (fs', err) →
  ∀ k data, tree fs' !! k = Some (File data) ↔ tree fs !! k = Some (File data).
Proof.
  intros (_ & Hadd & _)%MkdirAll_spec k data.
  destruct (Hadd k) as [->|(Hk & -> & _)]; [done|]. by rewrite Hk.
Qed.

(** *** Cleaned paths and their locations *)

Lemma walk_clean_step rooted start kept e :
  (rooted = true → start = []) → kept_ok rooted kept →
  fold_left walk (rev (filepath.clean_step rooted kept e)) start
  = walk (fold_left walk (rev kept) start) e.
Proof.
  intros Hroot Hk. unfold filepath.clean_step, walk at 2.
  destruct (decide (e = "" ∨ e = ".")) as [Hs|Hs]; [done|].
  destruct (decide (e = "..")) as [->|Hd].
  - destruct kept as [|top kept'].
    + destruct rooted; [by rewrite Hroot | done].
    + destruct (decide (top = "..")) as [->|Ht].
      * simpl. rewrite !fold_left_app. simpl. unfold walk at 1.
        by rewrite decide_False, decide_True.
      * simpl. rewrite fold_left_app. simpl.
        destruct (filepath_facts.kept_ok_head _ _ _ Hk) as [? ?].
        unfold walk at 2. rewrite decide_False by tauto.
        by rewrite decide_False.
  - simpl. rewrite fold_left_app. simpl. unfold walk at 1.
    by rewrite decide_False, decide_False.
Qed.

Lemma fold_walk_clean rooted start es kept :
  (rooted = true → start = []) → kept_ok rooted kept →
  fold_left walk (rev (fold_left (filepath.clean_step rooted) es kept)) start
  = fold_left walk es (fold_left walk (rev kept) start).
Proof.
  intros Hroot. revert kept. induction es as [|e es IH]; intros kept Hk; [done|].
  simpl. rewrite IH by by apply filepath_facts.clean_step_ok.
  by rewrite walk_clean_step.
Qed.

(** A path and its cleaned form name the same location. *)
Lemma locate_Clean fs path :
  path ≠ "" → locate fs (filepath.Clean path) = locate fs path.
Proof.
  intros Hp. rewrite filepath_facts.Clean_eq by done.
  unfold locate, filepath.clean_elems.
  set (r := filepath.IsAbs path).
  set (k := fold_left (filepath.clean_step r) (filepath.split path) []).
  assert (kept_ok r k) as Hok by by apply filepath_facts.fold_clean_ok.
  assert (Forall is_elem k) as Hel.
  { apply filepath_facts.fold_clean_elems;
      [apply filepath_facts.split_elems | done]. }
  rewrite filepath_facts.IsAbs_render by done.
  rewrite (filepath_facts.fold_split_render _ _ Hok Hel) by done.
  subst k. rewrite fold_walk_clean; [done| |done].
  by intros ->.
Qed.

(** An entry of a directory is found under the joined path. *)
Lemma locate_Join fs dir name :
  dir ≠ "" → is_name name →
  locate fs (filepath.Join [dir; name]) = name :: locate fs dir.
Proof.
  intros Hd (Hel & Hne & Hdot & Hdots).
  unfold filepath.Join. rewrite !decide_False by done.
  change (filepath.join [dir; name]) with (dir +:+ "/" +:+ name).
  assert (dir +:+ "/" +:+ name ≠ "") as Hp.
  { intros [? _]%app_eq_nil. done. }
  rewrite locate_Clean by done. unfold locate.
  rewrite filepath_facts.IsAbs_app by done.
  rewrite filepath_facts.split_app, fold_left_app, Hel. simpl.
  unfold walk at 1. rewrite decide_False by tauto. by rewrite decide_False.
Qed.

(** The path of [Delete] for a resource in a collection: the entry named as
    the resource, without the extension that [Write] adds. *)
Lemma locate_Join_Join fs root collection resource :
  root ≠ "" → is_name collection → is_name resource →
  locate fs (filepath.Join [root; filepath.Join [collection; resource]])
  = resource :: collection :: locate fs root.
Proof.
  intros Hroot (Hc & Hcne & Hcdot & Hcdots) (Hr & Hrne & Hrdot & Hrdots).
  assert (∀ t u, t ≠ "" → t +:+ u ≠ "") as Hne.
  { intros t u Ht [? _]%app_eq_nil. done. }
  assert (filepath.Join [collection; resource]
          = filepath.Clean (collection +:+ "/" +:+ resource)) as ->.
  { unfold filepath.Join. by rewrite decide_False. }
  unfold filepath.Join. rewrite decide_False by done.
  change (filepath.join [root; ?x]) with (root +:+ "/" +:+ x).
  rewrite locate_Clean by by apply Hne. unfold locate.
  rewrite filepath_facts.IsAbs_app by done.
  rewrite filepath_facts.split_app, fold_left_app.
  set (start := fold_left walk (filepath.split root) _).
  rewrite filepath_facts.Clean_eq by by apply Hne.
  rewrite filepath_facts.IsAbs_app by done.
  rewrite (filepath_facts.is_elem_not_abs collection) by done.
  unfold filepath.clean_elems.
  set (k := fold_left (filepath.clean_step false) _ []).
  assert (kept_ok false k) as Hok by by apply filepath_facts.fold_clean_ok.
  assert (Forall is_elem k) as Hel.
  { apply filepath_facts.fold_clean_elems;
      [apply filepath_facts.split_elems | done]. }
  rewrite (filepath_facts.fold_split_render _ _ Hok Hel) by done.
  subst k. rewrite fold_walk_clean by done.
  rewrite filepath_facts.split_app, Hc, Hr. simpl.
  unfold walk. rewrite (decide_False (P := collection = "" ∨ _)) by tauto.
  rewrite (decide_False (P := collection = "..")) by done.
  rewrite (decide_False (P := resource = "" ∨ _)) by tauto.
  by rewrite decide_False.
Qed.

(** [ReadFile] of an entry of a directory returns the data of the entry. *)
Lemma ReadFile_entry fs dir name data :
  dir ≠ "" → is_name name →
  tree fs !! (name :: locate fs dir) = Some (File data) →
  ReadFile fs (filepath.Join [dir; name]) = inr data.
Proof.
  intros Hd Hname Hdata. apply ReadFile_inr, find_inr. split.
  - unfold filepath.Join. rewrite !decide_False by done.
    apply filepath_facts.Clean_nonempty.
  - by rewrite locate_Join.
Qed.

End os_facts.

(** ** The registry of mutexes *)

Global Arguments filepath.Join : simpl never.
Global Arguments filepath.Clean : simpl never.
Global Arguments os.Stat : simpl never.
Global Arguments os.MkdirAll : simpl never.
Global Arguments os.WriteFile : simpl never.
Global Arguments os.ReadFile : simpl never.
Global Arguments os.ReadDir : simpl never.
Global Arguments os.Rename : simpl never.
Global Arguments os.Remove : simpl never.
Global Arguments os.RemoveAll : simpl never.

(** What [getOrCreateMutex] leaves behind: the entry, one more mutex when the
    entry is new, and the two calls on [d.mutex]. *)
Lemma getOrCreateMutex_run (collection : string) (s : St) :
  getOrCreateMutex collection s =
    match mutexes (driver s) !! collection with
    | Some m =>
        (inr m,
         mkSt (driver s)
           (emit (Unlock DriverMutex) (emit (Lock DriverMutex) (world s))))
    | None =>
        let m := allocated (world s) in
        (inr m,
         mkSt (mkDriver (<[collection := m]> (mutexes (driver s)))
                 (dir (driver s)) (log (driver s)))
           (emit (Unlock DriverMutex)
              (mkWorld (fs (world s)) (S m)
                 (trace (world s) ++ [Lock DriverMutex]))))
    end.
Proof.
  unfold getOrCreateMutex, defer, mbind, M_bind, do_event, this. simpl.
  destruct (mutexes (driver s) !! collection) as [m|]; reflexivity.
Qed.

Lemma getOrCreateMutex_returns (collection : string) (s : St) :
  ∃ m s1,
    getOrCreateMutex collection s = (inr m, s1) ∧
    mutexes (driver s1) !! collection = Some m ∧
    mutexes (driver s) ⊆ mutexes (driver s1) ∧
    dir (driver s1) = dir (driver s) ∧
    log (driver s1) = log (driver s) ∧
    fs (world s1) = fs (world s) ∧
    trace (world s1) = trace (world s) ++ [Lock DriverMutex; Unlock DriverMutex].
Proof.
  rewrite getOrCreateMutex_run.
  destruct (mutexes (driver s) !! collection) as [m|] eqn:E.
  - exists m. eexists. split; [done|]. simpl.
    rewrite <-(assoc_L (++)). done.
  - eexists _, _. split; [done|]. simpl.
    rewrite lookup_insert_eq, <-(assoc_L (++)).
    split_and!; try done. by apply insert_subseteq.
Qed.

(** ** [Write] *)

Section Write.
Context {V : Type} `{JSON V}.

(** [Write] step by step: the state [leave fs' logged] is the one the deferred
    [Unlock] leaves when the body stops with the files [fs']. *)
Lemma Write_run (collection resource : string) (v : V) (s : St) :
  collection ≠ "" → resource ≠ "" →
  ∃ m s1,
    getOrCreateMutex collection s = (inr m, s1) ∧
    let dir := filepath.Join [dir (driver s); collection] in
    let fnlPath := filepath.Join [dir; resource +:+ ".json"] in
    let tmpPath := fnlPath +:+ ".tmp" in
    let leave fs' logged :=
      mkSt (driver s1)
        (mkWorld fs' (allocated (world s1))
           (trace (world s1) ++ [Lock (MutexAt m)] ++ logged ++ [Unlock (MutexAt m)])) in
    Write collection resource v s =
      match os.MkdirAll (fs (world s)) dir with
      | (fs1, Some e) => (inl e, leave fs1 [])
      | (fs1, None) =>
          match MarshalIndent v "" tab with
          | inl e => (inl e, leave fs1 [])
          | inr b =>
              match os.WriteFile fs1 tmpPath (b ++ [x0a]) with
              | (fs2, Some e) => (inl e, leave fs2 [])
              | (fs2, None) =>
                  match os.Rename fs2 tmpPath fnlPath with
                  | (fs3, Some e) => (inl e, leave fs3 [])
                  | (fs3, None) =>
                      (inr (),
                       leave fs3
                         [LogCall (log (driver s)) INFO
                            ("Successfully wrote data to " +:+ quote +:+ fnlPath
                               +:+ quote +:+ newline)])
                  end
              end
          end
      end.
Proof.
  intros Hc Hr.
  destruct (getOrCreateMutex_returns collection s)
    as (m & s1 & Hg & _ & _ & Hdir & Hlog & Hfs & _).
  exists m, s1. split; [done|]. intros dirp fnlPath tmpPath leave.
  unfold Write. rewrite decide_False, decide_False by done.
  unfold mbind, M_bind at 1. rewrite Hg.
  unfold defer, mbind, M_bind, do_event, this, os_do, log_call, do_event, emit.
  simpl. rewrite Hdir, Hfs. fold dirp. fold fnlPath. fold tmpPath.
  assert (∀ fs' logged (r : error + ()) tr,
    tr = trace (world s1) ++ [Lock (MutexAt m)] ++ logged ++ [Unlock (MutexAt m)] →
    (r, mkSt (driver s1) (mkWorld fs' (allocated (world s1)) tr))
    = (r, leave fs' logged)) as Hleave by (by intros ???? ->).
  destruct (os.MkdirAll (fs (world s)) dirp) as [fs1 [e|]]; simpl.
  { apply Hleave. by rewrite <-(assoc_L (++)). }
  destruct (MarshalIndent v "" tab) as [e|b]; simpl.
  { apply Hleave. by rewrite <-(assoc_L (++)). }
  destruct (os.WriteFile fs1 tmpPath (b ++ [x0a])) as [fs2 [e|]]; simpl.
  { apply Hleave. by rewrite <-(assoc_L (++)). }
  destruct (os.Rename fs2 tmpPath fnlPath) as [fs3 [e|]]; simpl.
  { apply Hleave. by rewrite <-(assoc_L (++)). }
  apply Hleave. by rewrite Hlog, <-!(assoc_L (++)).
Qed.

Lemma Write_nonempty (collection resource : string) (v : V) (s s' : St) :
  Write collection resource v s = (inr (), s') →
  collection ≠ "" ∧ resource ≠ "".
Proof.
  unfold Write. do 2 (case_decide; [done|]). done.
Qed.

(** After a successful [Write] the record file holds the encoding of the
    value and a newline. *)
Lemma Write_ok (collection resource : string) (v : V) (s s' : St) :
  Write collection resource v s = (inr (), s') →
  ∃ b,
    MarshalIndent v "" tab = inr b ∧
    os.find (fs (world s'))
      (filepath.Join [dir (driver s); collection; resource +:+ ".json"])
    = inr (os.File (b ++ [x0a])) ∧
    dir (driver s') = dir (driver s).
Proof.
  intros Hw. destruct (Write_nonempty _ _ _ _ _ Hw) as [Hc Hr].
  destruct (Write_run collection resource v s Hc Hr) as (m & s1 & Hg & Heq).
  destruct (getOrCreateMutex_returns collection s)
    as (m' & s1' & Hg' & _ & _ & Hdir & _).
  rewrite Hg in Hg'. injection Hg' as <- <-.
  simpl in Heq. rewrite Heq in Hw. clear Heq.
  rewrite <-filepath_facts.Join_assoc.
  destruct (os.MkdirAll _ _) as [fs1 [e|]]; [done|].
  destruct (MarshalIndent v "" tab) as [e|b]; [done|].
  destruct (os.WriteFile _ _ _) as [fs2 [e|]] eqn:Hwf; [done|].
  destruct (os.Rename _ _ _) as [fs3 [e|]] eqn:Hrn; [done|].
  injection Hw as <-. simpl. exists b. split_and!; [done| |done].
  eapply os_facts.Rename_file_find; [|done].
  by eapply os_facts.WriteFile_find.
Qed.

End Write.

(** C4. [Write] with an empty collection name, or with an empty resource
    name, fails with an error whose message names the missing field
    (the collection when both are empty), and leaves the driver, the
    registry of mutexes, the trace of lock calls and the files as they
    were. *)
Theorem Write_missing_name {V : Type} `{JSON V}
    (collection resource : string) (v : V) (s : St) :
  collection = "" ∨ resource = "" →
  Write collection resource v s =
    (inl (Errorf (if decide (collection = "")
                  then "Missing collection - no place to save record!"
                  else "Missing resource - unable to save record (no name)!")),
     s).
Proof.
  intros Hmissing. unfold Write.
  destruct (decide (collection = "")) as [Hc|Hc]; [done|].
  destruct (decide (resource = "")) as [Hr|Hr]; [done|].
  by destruct Hmissing.
Qed.

(** C5. After every successful [Write] the record file
    [root/collection/resource.json] holds the indented encoding of the
    value followed by one newline byte. *)
Theorem Write_stores_indented_json {V : Type} `{JSON V}
    (collection resource : string) (v : V) (s s' : St) :
  Write collection resource v s = (inr (), s') →
  ∃ b,
    MarshalIndent v "" tab = inr b ∧
    os.ReadFile (fs (world s'))
      (filepath.Join [dir (driver s); collection; resource +:+ ".json"])
    = inr (b ++ [x0a]).
Proof.
  intros (b & Hb & Hfind & _)%Write_ok.
  exists b. split; [done|]. by apply os_facts.ReadFile_inr.
Qed.

(** ** [Read] *)



(** C3, as the code has it. When the value cannot be encoded, [Write] has
    already called [os.MkdirAll] on the collection directory: it returns the
    error of [MkdirAll] if there is one and the encoding error otherwise, and
    the files are as [MkdirAll] left them. Directories on the way to the
    collection directory may be new; no file, temporary or final, is made or
    changed. *)
Theorem Write_encoding_error {V : Type} `{JSON V}
    (collection resource : string) (v : V) (s : St) (e : error) :
  collection ≠ "" → resource ≠ "" →
  MarshalIndent v "" tab = inl e →
  let made := os.MkdirAll (fs (world s)) (filepath.Join [dir (driver s); collection]) in
  ∃ s',
    Write collection resource v s = (inl (default e made.2), s') ∧
    fs (world s') = made.1 ∧
    ∀ k data,
      os.tree (fs (world s')) !! k = Some (os.File data)
      ↔ os.tree (fs (world s)) !! k = Some (os.File data).
Proof.
  intros Hc Hr He made.
  destruct (Write_run collection resource v s Hc Hr) as (m & s1 & _ & Heq).
  simpl in Heq. rewrite Heq. clear Heq. subst made.
  destruct (os.MkdirAll _ _) as [fs1 err] eqn:Hmk.
  pose proof (os_facts.MkdirAll_files _ _ _ _ Hmk) as Hfiles.
  destruct err as [e'|]; [|rewrite He]; eexists; split_and!; done.
Qed.

(** ** [New] *)

(** C9. [New] returns a driver for the cleaned path in every case. When
    [os.Stat] finds the root, the files stay as they are and there is no
    error. Otherwise the files and the error are those of [os.MkdirAll]:
    the driver comes back beside the error, and when there is none the root
    is a directory, every entry that was there is unchanged, and every new
    entry is a directory on the way to the root whose parent is a
    directory. *)
Theorem New_creates_root (root : string) (options : option Options)
    (w w' : World) (d : Driver) (err : option error) :
  New root options w = ((d, err), w') →
  dir d = filepath.Clean root ∧
  match os.Stat (fs w) (filepath.Clean root) with
  | inr _ => err = None ∧ fs w' = fs w
  | inl _ =>
      os.MkdirAll (fs w) (filepath.Clean root) = (fs w', err) ∧
      (err = None → os.find (fs w') (filepath.Clean root) = inr os.Dir) ∧
      ∀ k, os.tree (fs w') !! k = os.tree (fs w) !! k ∨
           (os.tree (fs w) !! k = None ∧
            os.tree (fs w') !! k = Some os.Dir ∧
            k `suffix_of` os.locate (fs w) (filepath.Clean root) ∧
            os.node_at (os.tree (fs w')) (tail k) = Some os.Dir)
  end.
Proof.
  unfold New. destruct (os.Stat (fs w) (filepath.Clean root)) as [e|fi].
  - simpl. destruct (os.MkdirAll _ _) as [fs' err'] eqn:Hmk.
    intros [= <- <- <-]. simpl. split; [done|].
    apply os_facts.MkdirAll_spec in Hmk as (_ & Hadd & Hdir). done.
  - intros [= <- <- <-]. done.
Qed.

(** ** [ReadAll] *)

Section ReadAll.
Context `{JSON User}.

Lemma ReadAll_run (collection : string) (s : St) :
  collection ≠ "" →
  let dir := filepath.Join [dir (driver s); collection] in
  ReadAll collection s =
    match os.Stat (fs (world s)) dir with
    | inl err => (inl err, s)
    | inr _ =>
        match os.ReadDir (fs (world s)) dir with
        | inl err => (inl err, s)
        | inr files => ReadAll_range dir files [] s
        end
    end.
Proof.
  intros Hc dirp. unfold ReadAll. rewrite decide_False by done.
  unfold mbind, M_bind, this, os_get. simpl. fold dirp.
  destruct (os.Stat _ _); [done|]. by destruct (os.ReadDir _ _).
Qed.

(** The loop never changes the state. *)
Lemma ReadAll_range_state dir files users s r s' :
  ReadAll_range dir files users s = (r, s') → s' = s.
Proof.
  revert users. induction files as [|file files IH]; intros users; simpl.
  { by intros [= _ <-]. }
  destruct (os.IsDir file); [by apply IH|].
  unfold mbind, M_bind, os_get. simpl.
  destruct (os.ReadFile _ _) as [e|b]; [by intros [= _ <-]|].
  destruct (Unmarshal b zero_User) as [[e|] u]; [by intros [= _ <-]|].
  by apply IH.
Qed.

(** Subdirectories are skipped. *)
Lemma ReadAll_range_dirs dir files users s :
  Forall (λ file, os.IsDir file = true) files →
  ReadAll_range dir files users s = (inr users, s).
Proof.
  induction 1 as [|file files Hd _ IH]; simpl; [done|]. by rewrite Hd.
Qed.


Lemma ReadAll_range_first_error dir before file after users s b e u :
  Forall (passes s dir) before →
  os.IsDir file = false →
  os.ReadFile (fs (world s)) (filepath.Join [dir; os.Name file]) = inr b →
  Unmarshal b zero_User = (Some e, u) →
  ReadAll_range dir (before ++ file :: after) users s = (inl e, s).
Proof.
  intros Hbefore Hfile Hb He. revert users.
  induction Hbefore as [|f before Hf _ IH]; intros users; simpl.
  - rewrite Hfile. unfold mbind, M_bind, os_get. simpl. by rewrite Hb, He.
  - destruct (os.IsDir f) eqn:Hd; [by apply IH|].
    destruct Hf as [?|(b' & u' & Hb' & Hu')]; [congruence|].
    unfold mbind, M_bind, os_get. simpl. rewrite Hb', Hu'. by apply IH.
Qed.

(** C6. For a non-empty collection name: when nothing is found at the
    collection directory, [ReadAll] returns the error of [os.Stat] and no
    records; when the directory is there and holds no file, [ReadAll] returns
    the empty sequence and no error. *)
Theorem ReadAll_missing_or_empty (collection : string) (s : St) :
  collection ≠ "" →
  let dir := filepath.Join [dir (driver s); collection] in
  (∀ e, os.find (fs (world s)) dir = inl e →
        ReadAll collection s = (inl (PathError "stat" dir e), s)) ∧
  (os.find (fs (world s)) dir = inr os.Dir →
   (∀ name data,
      os.tree (fs (world s)) !! (name :: os.locate (fs (world s)) dir)
      ≠ Some (os.File data)) →
   ReadAll collection s = (inr [], s)).
Proof.
  intros Hc dirp. rewrite ReadAll_run by done. fold dirp. split.
  - intros e He. unfold os.Stat. by rewrite He.
  - intros Hdir Hnone. unfold os.Stat, os.ReadDir. rewrite Hdir.
    apply ReadAll_range_dirs.
    rewrite merge_sort_Permutation. apply Forall_fmap, Forall_forall.
    intros [k n] Hkn. unfold os.children in Hkn.
    apply elem_of_map_to_list, map_lookup_filter_Some in Hkn as [Hk [Hne Htl]].
    simpl in *. destruct k as [|name k]; [done|]. simpl in Htl. subst k.
    destruct n as [data|]; [by apply Hnone in Hk | done].
Qed.

(** C7. In an existing collection, [ReadAll] goes through the entries in the
    order of [ReadDir] and skips the directories; at the first file whose
    contents do not decode it stops and returns that error of [Unmarshal],
    and no records. *)
Theorem ReadAll_first_bad_record (collection : string) (s : St)
    (before after : list os.FileInfo) (file : os.FileInfo)
    (b : list byte) (e : error) (u : User) :
  collection ≠ "" →
  let dir := filepath.Join [dir (driver s); collection] in
  os.ReadDir (fs (world s)) dir = inr (before ++ file :: after) →
  Forall (passes s dir) before →
  os.IsDir file = false →
  os.ReadFile (fs (world s)) (filepath.Join [dir; os.Name file]) = inr b →
  Unmarshal b zero_User = (Some e, u) →
  ReadAll collection s = (inl e, s).
Proof.
  intros Hc dirp Hfiles Hbefore Hfile Hb He.
  rewrite ReadAll_run by done. fold dirp. rewrite Hfiles.
  assert (∃ fi, os.Stat (fs (world s)) dirp = inr fi) as [fi ->].
  { unfold os.ReadDir in Hfiles. unfold os.Stat.
    destruct (os.find _ _); [done | eauto]. }
  by eapply ReadAll_range_first_error.
Qed.

End ReadAll.

(** ** [Delete] *)

(** [Delete] step by step; [leave fs'] is the state the deferred [Unlock]
    leaves when the body stops with the files [fs']. *)
Lemma Delete_run (collection resource : string) (s : St) :
  ∃ m s1,
    getOrCreateMutex collection s = (inr m, s1) ∧
    let path := filepath.Join [collection; resource] in
    let dir := filepath.Join [dir (driver s); path] in
    let leave fs' :=
      mkSt (driver s1)
        (mkWorld fs' (allocated (world s1))
           (trace (world s1) ++ [Lock (MutexAt m); Unlock (MutexAt m)])) in
    let finish (r : os.FS * option error) : (error + ()) * St :=
      (match r.2 with Some e => inl e | None => inr () end, leave r.1) in
    Delete collection resource s =
      match os.Stat (fs (world s)) dir with
      | inl _ =>
          (inl (Errorf ("unable to find file or directory named " +:+ path +:+ newline)),
           leave (fs (world s)))
      | inr fi =>
          if os.IsDir fi then finish (os.RemoveAll (fs (world s)) dir)
          else finish (os.Remove (fs (world s)) (dir +:+ ".json"))
      end.
Proof.
  destruct (getOrCreateMutex_returns collection s)
    as (m & s1 & Hg & _ & _ & Hdir & _ & Hfs & _).
  exists m, s1. split; [done|]. intros path dirp leave finish.
  unfold Delete. unfold mbind, M_bind at 1. rewrite Hg.
  unfold defer, mbind, M_bind, do_event, this, os_try, os_do, emit.
  simpl. rewrite Hdir, Hfs. fold path. fold dirp.
  assert (∀ fs' (r : error + ()) tr,
    tr = trace (world s1) ++ [Lock (MutexAt m); Unlock (MutexAt m)] →
    (r, mkSt (driver s1) (mkWorld fs' (allocated (world s1)) tr))
    = (r, leave fs')) as Hleave by (by intros ??? ->).
  destruct (os.Stat (fs (world s)) dirp) as [e|fi]; simpl.
  { apply Hleave. by rewrite <-(assoc_L (++)). }
  unfold finish, os.IsRegular.
  destruct (os.IsDir fi); simpl.
  - destruct (os.RemoveAll _ _) as [fs' [e|]]; simpl;
      apply Hleave; by rewrite <-(assoc_L (++)).
  - destruct (os.Remove _ _) as [fs' [e|]]; simpl;
      apply Hleave; by rewrite <-(assoc_L (++)).
Qed.

(** [Delete] of a target that [os.Stat] does not find reports it and leaves
    the files as they are. *)
Lemma Delete_not_found (collection resource : string) (s : St) (e : Errno) :
  let path := filepath.Join [collection; resource] in
  os.find (fs (world s)) (filepath.Join [dir (driver s); path]) = inl e →
  ∃ s',
    Delete collection resource s =
      (inl (Errorf ("unable to find file or directory named " +:+ path +:+ newline)), s') ∧
    fs (world s') = fs (world s).
Proof.
  intros path He.
  destruct (Delete_run collection resource s) as (m & s1 & _ & Heq).
  simpl in Heq. rewrite Heq. unfold os.Stat. fold path. rewrite He.
  eexists. split; done.
Qed.

(** The defect behind C1, for every record with plain names: [Write] makes
    the entry [resource.json] of the collection directory, [Delete] looks
    for the entry [resource]. Unless there is such an entry beside the
    record, [Delete] reports the record as not found and leaves it where it
    is. *)
Lemma Delete_after_Write {V : Type} `{JSON V}
    (collection resource : string) (v : V) (s s1 : St) :
  dir (driver s) ≠ "" → is_name collection → is_name resource →
  Write collection resource v s = (inr (), s1) →
  os.tree (fs (world s1))
    !! (resource :: collection :: os.locate (fs (world s1)) (dir (driver s)))
  = None →
  ∃ s2 b,
    Delete collection resource s1
    = (inl (not_found (filepath.Join [collection; resource])), s2) ∧
    fs (world s2) = fs (world s1) ∧
    MarshalIndent v "" tab = inr b ∧
    os.ReadFile (fs (world s2))
      (filepath.Join [dir (driver s); collection; resource +:+ ".json"])
    = inr (b ++ [x0a]).
Proof.
  intros Hroot Hc Hr Hw Hnone.
  apply Write_ok in Hw as (b & Hb & Hfind & Hdir).
  destruct (Delete_not_found collection resource s1
              (os.missing (os.tree (fs (world s1)))
                 (resource :: collection
                    :: os.locate (fs (world s1)) (dir (driver s)))))
    as (s2 & Hd & Hfs).
  { rewrite Hdir. unfold os.find.
    rewrite decide_False.
    - by rewrite os_facts.locate_Join_Join, os_facts.node_at_cons, Hnone.
    - unfold filepath.Join at 1. rewrite decide_False by done.
      apply filepath_facts.Clean_nonempty. }
  exists s2, b. split_and!; [done|done|done|].
  rewrite Hfs. by apply os_facts.ReadFile_inr.
Qed.



(** ** One mutex for each collection *)

Section registry.
Context `{JSON User}.

(** No call removes or changes an entry of the registry. *)
Lemma after_keeps_mutexes (s : St) (call : Call) :
  mutexes (driver s) ⊆ mutexes (driver (after s call)).
Proof.
  destruct call as [c r v|c r v|c|c r|c]; simpl.
  - unfold Write. do 2 (case_decide; [done|]).
    destruct (Write_run c r v s) as (m & s1 & Hg & Heq); [done..|].
    destruct (getOrCreateMutex_returns c s) as (m' & s1' & Hg' & _ & Hsub & _).
    rewrite Hg in Hg'. injection Hg' as <- <-.
    simpl in Heq. unfold Write in Heq.
    rewrite decide_False, decide_False in Heq by done. rewrite Heq.
    repeat case_match; done.
  - unfold Read. repeat case_match; done.
  - destruct (ReadAll c s) as [r s'] eqn:E. simpl.
    unfold ReadAll in E. case_decide; [by injection E as <- <-|].
    unfold mbind, M_bind, this, os_get in E. simpl in E.
    destruct (os.Stat _ _); [by injection E as <- <-|].
    destruct (os.ReadDir _ _); [by injection E as <- <-|].
    by apply ReadAll_range_state in E as ->.
  - destruct (Delete_run c r s) as (m & s1 & Hg & Heq).
    destruct (getOrCreateMutex_returns c s) as (m' & s1' & Hg' & _ & Hsub & _).
    rewrite Hg in Hg'. injection Hg' as <- <-.
    simpl in Heq. rewrite Heq. repeat case_match; done.
  - destruct (getOrCreateMutex_returns c s) as (m & s1 & -> & _ & Hsub & _).
    done.
Qed.

Lemma calls_keep_mutexes (s : St) (calls : list Call) :
  mutexes (driver s) ⊆ mutexes (driver (fold_left after calls s)).
Proof.
  revert s. induction calls as [|call calls IH]; intros s; [done|].
  simpl. etrans; [apply after_keeps_mutexes | apply IH].
Qed.

(** A later call of [getOrCreateMutex] finds the entry. *)
Lemma getOrCreateMutex_again (collection : string) (m : nat) (s : St) :
  mutexes (driver s) !! collection = Some m →
  ∃ s', getOrCreateMutex collection s = (inr m, s') ∧ driver s' = driver s.
Proof.
  intros Hm. rewrite getOrCreateMutex_run, Hm. eauto.
Qed.

End registry.

Module concurrent_facts.
Import concurrent.

(** The goroutine that steps stays between [Lock] and [Unlock]: the three
    parts of the invariant for the list with its new point. *)
Local Ltac stays_held :=
  match goal with
  | Hlook : context [<[_ := _]> _ !! _ = Some _ → _], Hheld : context [locked _ = true] |- _ =>
      intros ? ? [[-> ->]|[? ?]]%Hlook ?; eapply Hheld; eauto; done
  end.
Local Ltac stays_alone :=
  match goal with
  | Hlook : context [<[_ := _]> _ !! _ = Some _ → _],
    Halone : context [¬ critical _],
    Hone : context [critical _ → critical _ → _ = _] |- _ =>
      intros ? ? ? ? [[-> ->]|[? H1]]%Hlook [[-> ->]|[? H2]]%Hlook ? ?;
      [ done
      | by eapply Halone in H2
      | by eapply Halone in H1
      | by eapply Hone ]
  end.
Local Ltac stays_agreed :=
  match goal with
  | Hlook : context [<[_ := _]> _ !! _ = Some _ → _],
    Hagree : context [agrees] |- _ =>
      intros ? ? [[-> ->]|[? Hx]]%Hlook; [done | by apply Hagree in Hx]
  end.

Lemma initial_exclusive (cfg : Config) : initial cfg → exclusive cfg.
Proof.
  intros [Hfree Hall]. rewrite Forall_lookup in Hall.
  split_and!.
  - intros i g Hg Hc. apply Hall in Hg. unfold critical in Hc. by rewrite Hg in Hc.
  - intros i j gi gj Hi _ Hc _. apply Hall in Hi.
    unfold critical in Hc. by rewrite Hi in Hc.
  - intros i g Hg. apply Hall in Hg. unfold agrees. by rewrite Hg.
Qed.

(** A step keeps the invariant and the entries of the map. *)
Lemma schedule_exclusive (i : nat) (cfg cfg' : Config) :
  exclusive cfg → schedule i cfg = Some cfg' →
  exclusive cfg' ∧ mutexes cfg.1 ⊆ mutexes cfg'.1.
Proof.
  destruct cfg as [sh gs]. intros (Hheld & Hone & Hagree). unfold schedule. simpl.
  destruct (gs !! i) as [g|] eqn:Hg; [|done]. simpl.
  destruct (advance sh g) as [[sh' g']|] eqn:Hadv; [|done]. simpl.
  intros [= <-]. simpl.
  assert (∀ j x, <[i := g']> gs !! j = Some x →
    (j = i ∧ x = g') ∨ (j ≠ i ∧ gs !! j = Some x)) as Hlook.
  { intros j x Hx.
    apply list_lookup_insert_Some in Hx as [(Hij & Hxg & _)|[Hij Hx]];
      [left | right]; (split; [congruence | done]). }
  pose proof (Hagree i g Hg) as Hgi.
  assert (∀ j x, critical g → j ≠ i → gs !! j = Some x → ¬ critical x) as Halone.
  { intros j x Hcg Hji Hx Hcx. by apply Hji, (Hone j i x g). }
  destruct g as [c p]. unfold advance in Hadv. unfold agrees in Hgi.
  unfold exclusive. simpl in *.
  destruct p as [| |[m|]|m|m|m]; simplify_eq/=.
  - (* Lock *)
    destruct (locked sh) eqn:Hl; simplify_eq/=. split; [|done]. split_and!.
    + done.
    + intros j1 j2 g1 g2 [[-> ->]|[? H1]]%Hlook [[-> ->]|[? H2]]%Hlook Hc1 Hc2;
        try done.
      * apply Hheld in H2; [congruence | done].
      * apply Hheld in H1; [congruence | done].
      * apply Hheld in H1; [congruence | done].
    + intros j x [[-> ->]|[? Hx]]%Hlook; [done|]. by apply Hagree in Hx.
  - (* the lookup *)
    split; [|done]. split_and!; [stays_held | stays_alone | stays_agreed].
  - (* the entry was there *)
    split; [|done]. split_and!; [stays_held | stays_alone | stays_agreed].
  - (* a new mutex *)
    split; [|done]. split_and!; [stays_held | stays_alone | stays_agreed].
  - (* the insert *)
    split; [|by apply insert_subseteq]. split_and!; [stays_held | stays_alone |].
    intros j x [[-> ->]|[Hji Hx]]%Hlook.
    { unfold agrees. simpl. apply lookup_insert_eq. }
    pose proof (Halone j x I Hji Hx) as Hnc.
    pose proof (Hagree j x Hx) as Hxa.
    destruct x as [cx px]. unfold agrees, critical in *. simpl in *.
    destruct px; try done.
    rewrite lookup_insert_ne; [done|]. intros ->. congruence.
  - (* Unlock *)
    split; [|done]. split_and!.
    + intros j x [[-> ->]|[Hji Hx]]%Hlook Hc; [done|]. by eapply Halone in Hx.
    + intros j1 j2 g1 g2 [[-> ->]|[? H1]]%Hlook [[-> ->]|[? H2]]%Hlook Hc1 Hc2;
        try done.
      by eapply Hone.
    + intros j x [[-> ->]|[? Hx]]%Hlook; [done|]. by apply Hagree in Hx.
Qed.

Lemma run_exclusive (sched : list nat) (cfg cfg' : Config) :
  exclusive cfg → run sched cfg = Some cfg' →
  exclusive cfg' ∧ mutexes cfg.1 ⊆ mutexes cfg'.1.
Proof.
  revert cfg. induction sched as [|i sched IH]; intros cfg Hinv; simpl.
  { by intros [= <-]. }
  destruct (schedule i cfg) as [cfg1|] eqn:Hs; [|done]. simpl. intros Hrun.
  destruct (schedule_exclusive _ _ _ Hinv Hs) as [Hinv1 Hsub1].
  destruct (IH _ Hinv1 Hrun) as [Hinv' Hsub']. split; [done|]. by etrans.
Qed.

End concurrent_facts.

(** One goroutine that runs [getOrCreateMutex] from beginning to end does
    what the method does. *)
Lemma getOrCreateMutex_alone (collection : string) (s : St) :
  ∃ sched m s1,
    getOrCreateMutex collection s = (inr m, s1) ∧
    concurrent.run sched (shared s, [concurrent.mkGoroutine collection concurrent.Called])
    = Some (shared s1, [concurrent.mkGoroutine collection (concurrent.Returned m)]).
Proof.
  rewrite getOrCreateMutex_run.
  destruct (mutexes (driver s) !! collection) as [m|] eqn:E.
  - exists [0; 0; 0; 0], m. eexists. split; [done|].
    unfold shared. simpl. unfold concurrent.schedule, concurrent.advance. simpl.
    rewrite E. simpl. done.
  - exists [0; 0; 0; 0; 0]. eexists _, _. split; [done|].
    unfold shared. simpl. unfold concurrent.schedule, concurrent.advance. simpl.
    rewrite E. simpl. done.
Qed.

(** C8. The registry holds one mutex for each collection name.
    One call after another: [getOrCreateMutex] returns the mutex of the
    entry, and after any further calls on the driver it returns the same
    mutex and leaves the driver as it is.
    Goroutines that call [getOrCreateMutex] at once, under any schedule: the
    entries the driver had are still there, at most one goroutine is between
    [d.mutex.Lock()] and the deferred [Unlock], where the lookup and the
    insert happen, and every goroutine that has returned holds the mutex the
    map has for its collection, so two of them with one collection name hold
    the same mutex. *)
Theorem one_mutex_per_collection `{JSON User}
    (collection : string) (s : St) (calls : list Call)
    (sched : list nat) (goroutines goroutines' : list concurrent.Goroutine)
    (sh' : concurrent.Shared) :
  Forall (λ g, concurrent.point g = concurrent.Called) goroutines →
  concurrent.run sched (shared s, goroutines) = Some (sh', goroutines') →
  (∃ m s1 s2,
     getOrCreateMutex collection s = (inr m, s1) ∧
     mutexes (driver s1) !! collection = Some m ∧
     mutexes (driver s) ⊆ mutexes (driver s1) ∧
     mutexes (driver s1) ⊆ mutexes (driver (fold_left after calls s1)) ∧
     getOrCreateMutex collection (fold_left after calls s1) = (inr m, s2) ∧
     driver s2 = driver (fold_left after calls s1)) ∧
  mutexes (driver s) ⊆ concurrent.mutexes sh' ∧
  (∀ i j gi gj,
     goroutines' !! i = Some gi → goroutines' !! j = Some gj →
     concurrent.critical gi → concurrent.critical gj → i = j) ∧
  (∀ i j gi gj m1 m2,
     goroutines' !! i = Some gi → goroutines' !! j = Some gj →
     concurrent.collection gi = concurrent.collection gj →
     concurrent.point gi = concurrent.Returned m1 →
     concurrent.point gj = concurrent.Returned m2 →
     m1 = m2 ∧ concurrent.mutexes sh' !! concurrent.collection gi = Some m1).
Proof.
  intros Hcalled Hrun. split.
  - destruct (getOrCreateMutex_returns collection s)
      as (m & s1 & Hg & Hm & Hsub & _).
    pose proof (calls_keep_mutexes s1 calls) as Hkeep.
    destruct (getOrCreateMutex_again collection m (fold_left after calls s1))
      as (s2 & Hg2 & Hd2).
    { by eapply lookup_weaken. }
    by exists m, s1, s2.
  - assert (concurrent.initial (shared s, goroutines)) as Hinit by done.
    apply concurrent_facts.initial_exclusive in Hinit.
    destruct (concurrent_facts.run_exclusive _ _ _ Hinit Hrun)
      as [(_ & Hone & Hagree) Hsub].
    simpl in *. split_and!; [done|done|].
    intros i j gi gj m1 m2 Hi Hj Hc H1 H2.
    apply Hagree in Hi, Hj. unfold agrees in Hi, Hj.
    rewrite H1 in Hi. rewrite H2, <-Hc in Hj. split; congruence.
Qed.

(** * The run of [main], and the properties on it *)

Lemma started_run :
  New "./Users" None workdir
  = ((driver started, None), world started).
Proof. vm_compute. reflexivity. Qed.

Lemma with_Kamo_run :
  Write "users" "Kamo" Kamo started = (inr (), with_Kamo).
Proof. vm_compute. reflexivity. Qed.


(** C1, where the code departs from it. [Write("users", "Kamo", Kamo)] makes
    the record file [Users/users/Kamo.json]. [Delete("users", "Kamo")] should
    remove that file; it looks for [Users/users/Kamo], finds nothing, reports
    the record as not found and removes nothing: [Read] still returns the
    record afterwards. *)
Theorem Delete_misses_record :
  Write "users" "Kamo" Kamo started = (inr (), with_Kamo) ∧
  (Delete "users" "Kamo" with_Kamo).1 = inl (not_found "users/Kamo") ∧
  fs (world (Delete "users" "Kamo" with_Kamo).2) = fs (world with_Kamo) ∧
  Read "users" "Kamo" zero_User (Delete "users" "Kamo" with_Kamo).2
  = ((None, Kamo), (Delete "users" "Kamo" with_Kamo).2).
Proof. split_and!; vm_compute; reflexivity. Qed.


Lemma Write_encoding_error_creates_directory :
  MarshalIndent Zed "" tab = inl (invalid_number "abc") ∧
  os.find (fs (world started)) "Users/users" = inl ENOENT ∧
  Write "users" "Zed" Zed started = (inl (invalid_number "abc"), with_failed_Zed) ∧
  os.find (fs (world with_failed_Zed)) "Users/users" = inr os.Dir.
Proof. split_and!; vm_compute; reflexivity. Qed.

Lemma Write_encoding_error_witness :
  ∃ s',
    Write "users" "Zed" Zed started = (inl (invalid_number "abc"), s') ∧
    fs (world s')
    = (os.MkdirAll (fs (world started)) (filepath.Join [dir (driver started); "users"])).1 ∧
    ∀ k data,
      os.tree (fs (world s')) !! k = Some (os.File data)
      ↔ os.tree (fs (world started)) !! k = Some (os.File data).
Proof.
  apply (Write_encoding_error "users" "Zed" Zed started (invalid_number "abc"));
    [done | done | vm_compute; reflexivity].
Defined.

Lemma Write_missing_name_witness :
  Write "" "Kamo" Kamo started
  = (inl (Errorf "Missing collection - no place to save record!"), started) ∧
  Write "users" "" Kamo started
  = (inl (Errorf "Missing resource - unable to save record (no name)!"), started).
Proof.
  split.
  - apply (Write_missing_name "" "Kamo" Kamo started). by left.
  - apply (Write_missing_name "users" "" Kamo started). by right.
Defined.

Lemma Write_stores_indented_json_witness :
  ∃ b,
    MarshalIndent Kamo "" tab = inr b ∧
    os.ReadFile (fs (world with_Kamo)) "Users/users/Kamo.json" = inr (b ++ [x0a]).
Proof.
  apply (Write_stores_indented_json "users" "Kamo" Kamo started with_Kamo).
  exact with_Kamo_run.
Defined.

Lemma ReadAll_missing_or_empty_witness :
  ReadAll "users" started = (inl (PathError "stat" "Users/users" ENOENT), started) ∧
  ReadAll "users" with_failed_Zed = (inr [], with_failed_Zed).
Proof.
  split.
  - apply (ReadAll_missing_or_empty "users" started); [done|].
    vm_compute. reflexivity.
  - apply (ReadAll_missing_or_empty "users" with_failed_Zed); [done| |].
    + vm_compute. reflexivity.
    + assert (map_Forall (λ _ n, n = os.Dir)
                (os.tree (fs (world with_failed_Zed)))) as Hdirs.
      { apply (bool_decide_unpack _). vm_compute. exact I. }
      intros name data Hfile. by apply Hdirs in Hfile.
Defined.

Lemma ReadAll_first_bad_record_witness :
  os.ReadDir (fs (world with_garbage)) "Users/users"
  = inr [os.mkFileInfo "Archive" true; os.mkFileInfo "Kamo.json" false;
         os.mkFileInfo "Zed.json" false] ∧
  ReadAll "users" with_garbage
  = (inl (JSONError "json: cannot unmarshal into Go value of type main.User"),
     with_garbage).
Proof.
  split; [vm_compute; reflexivity|].
  apply (ReadAll_first_bad_record "users" with_garbage
           [os.mkFileInfo "Archive" true; os.mkFileInfo "Kamo.json" false] []
           (os.mkFileInfo "Zed.json" false)
           (String.list_byte_of_string "Zed") _ zero_User).
  - done.
  - vm_compute. reflexivity.
  - apply Forall_cons. split; [by left|].
    apply Forall_cons. split; [|by apply Forall_nil].
    right. exists Kamo_json, Kamo. split; vm_compute; reflexivity.
  - reflexivity.
  - vm_compute. reflexivity.
  - vm_compute. reflexivity.
Defined.

Lemma New_creates_root_witness :
  filepath.Clean "./Users" = "Users" ∧
  os.find (fs workdir) "Users" = inl ENOENT ∧
  os.MkdirAll (fs workdir) "Users" = (fs (world started), None) ∧
  os.find (fs (world started)) "Users" = inr os.Dir.
Proof.
  pose proof (New_creates_root "./Users" None workdir (world started)
                (driver started) None started_run) as [_ Hnew].
  change (filepath.Clean "./Users") with "Users" in Hnew.
  change (os.Stat (fs workdir) "Users")
    with (inl (PathError "stat" "Users" ENOENT) : error + os.FileInfo) in Hnew.
  destruct Hnew as (Hmk & Hdir & _).
  split_and!; [reflexivity | reflexivity | exact Hmk | exact (Hdir eq_refl)].
Defined.

(** [New] on a root beneath a file: the driver comes back beside the error
    of [MkdirAll]. *)
Example New_beneath_a_file :
  (New "Users/users/Kamo.json/db" None (world with_Kamo)).1
  = (mkDriver ∅ "Users/users/Kamo.json/db" (ConsoleLogger INFO),
     Some (PathError "mkdir" "Users/users/Kamo.json/db" ENOTDIR)).
Proof. vm_compute. reflexivity. Qed.

(** [New] on a root that is there. *)
Example New_again :
  (New "./Users" None (world with_Kamo)).1
  = (mkDriver ∅ "Users" (ConsoleLogger INFO), None) ∧
  fs (New "./Users" None (world with_Kamo)).2 = fs (world with_Kamo).
Proof. split; vm_compute; reflexivity. Qed.



(** After [Delete("users", "")] both records are gone. *)
Example Delete_empty_resource_removes_all :
  ReadAll "users" with_both = (inr [Kamo; Kamzo], with_both) ∧
  (Delete "users" "" with_both).1 = inr () ∧
  (ReadAll "users" (Delete "users" "" with_both).2).1
  = inl (PathError "stat" "Users/users" ENOENT).
Proof. split_and!; vm_compute; reflexivity. Qed.

Lemma one_mutex_per_collection_witness :
  let callers :=
    [concurrent.mkGoroutine "users" concurrent.Called;
     concurrent.mkGoroutine "users" concurrent.Called;
     concurrent.mkGoroutine "teams" concurrent.Called] in
  let returned :=
    [concurrent.mkGoroutine "users" (concurrent.Returned 0);
     concurrent.mkGoroutine "users" (concurrent.Returned 0);
     concurrent.mkGoroutine "teams" (concurrent.Returned 1)] in
  let sh' :=
    concurrent.mkShared false (<["teams" := 1]> (<["users" := 0]> ∅)) 2 in
  concurrent.run [0; 0; 1] (shared started, callers) = None ∧
  concurrent.run [0; 0; 0; 0; 0; 2; 2; 2; 2; 2; 1; 1; 1; 1]
    (shared started, callers)
  = Some (sh', returned) ∧
  (∃ m s1 s2,
     getOrCreateMutex "users" started = (inr m, s1) ∧
     getOrCreateMutex "users"
       (fold_left after
          [CallWrite "users" "Kamo" Kamo; CallDelete "users" "Kamo"] s1)
     = (inr m, s2)) ∧
  mutexes (driver started) ⊆ concurrent.mutexes sh'.
Proof.
  intros callers returned sh'.
  assert (concurrent.run [0; 0; 0; 0; 0; 2; 2; 2; 2; 2; 1; 1; 1; 1]
            (shared started, callers) = Some (sh', returned)) as Hrun.
  { vm_compute. reflexivity. }
  assert (Forall (λ g, concurrent.point g = concurrent.Called) callers)
    as Hcalled by repeat constructor.
  destruct (one_mutex_per_collection "users" started
              [CallWrite "users" "Kamo" Kamo; CallDelete "users" "Kamo"]
              _ _ _ _ Hcalled Hrun)
    as ((m & s1 & s2 & Hg & _ & _ & _ & Hg2 & _) & Hsub & _).
  split_and!.
  - vm_compute. reflexivity.
  - exact Hrun.
  - exists m, s1, s2. split; [exact Hg | exact Hg2].
  - exact Hsub.
Defined.

(** * More of the driver *)

(** ** The arguments of [Read] and [ReadAll] *)

(** X1. [Read] with an empty collection name, or with an empty resource
    name, returns an error that names the missing field (the collection when
    both are empty) and touches neither the container nor the state. *)
Theorem Read_missing_name {V : Type} `{JSON V}
    (collection resource : string) (v : V) (s : St) :
  collection = "" ∨ resource = "" →
  Read collection resource v s =
    ((Some (Errorf (if decide (collection = "")
                    then "Missing collection - unable to read!"
                    else "Missing resource - unable to read record (no name)!")),
      v), s).
Proof.
  intros Hmissing. unfold Read.
  destruct (decide (collection = "")) as [Hc|Hc]; [done|].
  destruct (decide (resource = "")) as [Hr|Hr]; [done|].
  by destruct Hmissing.
Qed.

(** X2. [Read] of a record that is not there returns the error of [os.Stat]
    on the record file, leaves the container as it was, and creates
    nothing: the state, files included, is unchanged. *)
Theorem Read_not_found {V : Type} `{JSON V}
    (collection resource : string) (v : V) (s : St) (e : Errno) :
  collection ≠ "" → resource ≠ "" →
  let record :=
    filepath.Join [dir (driver s); collection; resource +:+ ".json"] in
  os.find (fs (world s)) record = inl e →
  Read collection resource v s = ((Some (PathError "stat" record e), v), s).
Proof.
  intros Hc Hr record He. unfold Read.
  rewrite decide_False, decide_False by done. fold record.
  unfold os.Stat. by rewrite He.
Qed.

(** X3. [Read] of a record file that is there decodes its bytes into the
    container and returns what [Unmarshal] returns, error and container;
    on a directory of that name it fails with the read error. The state is
    unchanged in both cases. *)
Theorem Read_decodes_file {V : Type} `{JSON V}
    (collection resource : string) (v : V) (s : St) (n : os.node) :
  collection ≠ "" → resource ≠ "" →
  let record :=
    filepath.Join [dir (driver s); collection; resource +:+ ".json"] in
  os.find (fs (world s)) record = inr n →
  Read collection resource v s =
    match n with
    | os.File data => (Unmarshal data v, s)
    | os.Dir => ((Some (PathError "read" record EISDIR), v), s)
    end.
Proof.
  intros Hc Hr record Hn. unfold Read.
  rewrite decide_False, decide_False by done. fold record.
  unfold os.Stat, os.ReadFile. rewrite Hn. by destruct n.
Qed.

(** X4. [ReadAll] with an empty collection name fails before it looks at
    the files, and whatever its argument and result, [ReadAll] leaves the
    state as it was: it takes no lock, makes no entry in the registry and
    changes no file. *)
Theorem ReadAll_changes_nothing `{JSON User} (collection : string) (s : St) :
  (ReadAll collection s).2 = s ∧
  (collection = "" →
   ReadAll collection s = (inl (Errorf "Missing collection - unable to read"), s)).
Proof.
  split.
  - destruct (ReadAll collection s) as [r s'] eqn:E. simpl.
    unfold ReadAll in E. case_decide; [by injection E as <- <-|].
    unfold mbind, M_bind, this, os_get in E. simpl in E.
    destruct (os.Stat _ _); [by injection E as <- <-|].
    destruct (os.ReadDir _ _); [by injection E as <- <-|].
    by apply ReadAll_range_state in E.
  - intros ->. reflexivity.
Qed.

(** ** The records of [ReadAll] *)

Global Instance by_name_total : Total os.by_name.
Proof. intros a b. unfold os.by_name. apply (total String.le). Qed.

Lemma ReadAll_range_collects `{JSON User} dir files users acc s :
  Forall2 (decodes_to s dir) (filter (λ f, os.IsDir f = false) files) users →
  ReadAll_range dir files acc s = (inr (acc ++ users), s).
Proof.
  revert users acc. induction files as [|file files IH]; intros users acc.
  { intros ->%Forall2_nil_inv_l. simpl. by rewrite (right_id_L [] (++)). }
  simpl. destruct (os.IsDir file) eqn:Hd.
  - rewrite filter_cons_False by (by rewrite Hd). apply IH.
  - rewrite filter_cons_True by done.
    intros (user & users' & (b & Hb & Hu) & Hrest & ->)%Forall2_cons_inv_l.
    unfold mbind, M_bind, os_get. simpl. rewrite Hb, Hu.
    rewrite (IH users' (acc ++ [user]) Hrest). by rewrite <-(assoc_L (++)).
Qed.

(** X5. When every file of the collection decodes, [ReadAll] returns one
    record for each entry of the directory that is not itself a directory,
    whatever the name of the file, in the order of [ioutil.ReadDir], which
    is the order of the file names. *)
Theorem ReadAll_collects `{JSON User} (collection : string) (s : St)
    (files : list os.FileInfo) (users : list User) :
  collection ≠ "" →
  let dir := filepath.Join [dir (driver s); collection] in
  os.ReadDir (fs (world s)) dir = inr files →
  Forall2 (decodes_to s dir) (filter (λ f, os.IsDir f = false) files) users →
  Sorted os.by_name files ∧ ReadAll collection s = (inr users, s).
Proof.
  intros Hc dirp Hfiles Hall. split.
  - unfold os.ReadDir in Hfiles.
    destruct (os.find _ _) as [|[|]]; try done.
    injection Hfiles as <-. apply Sorted_merge_sort. apply _.
  - rewrite ReadAll_run by done. fold dirp. rewrite Hfiles.
    assert (∃ fi, os.Stat (fs (world s)) dirp = inr fi) as [fi ->].
    { unfold os.ReadDir in Hfiles. unfold os.Stat.
      destruct (os.find _ _); [done | eauto]. }
    by rewrite (ReadAll_range_collects _ _ users []).
Qed.

Lemma ReadAll_collects_witness :
  os.ReadDir (fs (world with_both)) "Users/users"
  = inr [os.mkFileInfo "Kamo.json" false; os.mkFileInfo "Kamzo.json" false] ∧
  ReadAll "users" with_both = (inr [Kamo; Kamzo], with_both).
Proof.
  assert (os.ReadDir (fs (world with_both)) "Users/users"
          = inr [os.mkFileInfo "Kamo.json" false; os.mkFileInfo "Kamzo.json" false])
    as Hfiles by (vm_compute; reflexivity).
  split; [exact Hfiles|].
  apply (ReadAll_collects "users" with_both _ [Kamo; Kamzo] ltac:(done) Hfiles).
  change (Forall2 (decodes_to with_both "Users/users")
            [os.mkFileInfo "Kamo.json" false; os.mkFileInfo "Kamzo.json" false]
            [Kamo; Kamzo]).
  constructor; [|constructor; [|constructor]].
  - exists Kamo_json. split; vm_compute; reflexivity.
  - exists Kamzo_json. split; vm_compute; reflexivity.
Defined.

(** ** The collection mutex around [Write] and [Delete] *)




(** ** Where [Write] puts the record and the temporary file *)

Lemma app_last_snoc l x suffix : app_last (l ++ [x]) suffix = l ++ [x +:+ suffix].
Proof.
  induction l as [|y l IH]; [done|]. simpl. rewrite IH.
  by destruct l.
Qed.

Lemma snoc_inv {A} (l : list A) : l ≠ [] → ∃ l' x, l = l' ++ [x].
Proof.
  induction l as [|y l IH]; [done|]. intros _.
  destruct l as [|z l]; [by exists [], y|].
  destruct IH as (l' & x & ->); [done|]. by exists (y :: l'), x.
Qed.

(** Appending a string without separator changes the last element only. *)
Lemma split_app_elem s suffix :
  is_elem suffix →
  filepath.split (s +:+ suffix) = app_last (filepath.split s) suffix.
Proof.
  intros Hsuf. induction s as [|a s IH]; [done|].
  rewrite app_cons. simpl. case_decide.
  - rewrite IH. pose proof (filepath_facts.split_nonempty s).
    by destruct (filepath.split s).
  - rewrite IH. pose proof (filepath_facts.split_nonempty s).
    destruct (filepath.split s) as [|c [|c' cs]]; done.
Qed.

(** A string with a suffix of three characters or more is a name as soon as
    it has no separator. *)
Lemma suffixed_name x a b c suffix :
  is_elem (x +:+ String a (String b (String c suffix))) →
  is_name (x +:+ String a (String b (String c suffix))).
Proof.
  intros Hel. split; [done|].
  destruct x as [|x1 [|x2 [|x3 x]]]; done.
Qed.

Lemma walk_name loc e : is_name e → os.walk loc e = e :: loc.
Proof.
  intros (_ & ? & ? & ?). unfold os.walk.
  rewrite decide_False by tauto. by rewrite decide_False.
Qed.

Lemma clean_step_name rooted kept e :
  is_name e → filepath.clean_step rooted kept e = e :: kept.
Proof.
  intros (_ & ? & ? & ?). unfold filepath.clean_step.
  rewrite decide_False by tauto. by rewrite decide_False.
Qed.

(** The location of a path that ends in a name, and of the same path with an
    extension. *)
Lemma locate_ends_in_name fs path before e suffix :
  path ≠ "" →
  filepath.split path = before ++ [e] → is_name e →
  is_elem suffix → is_name (e +:+ suffix) →
  ∃ loc,
    os.locate fs (filepath.Clean path) = e :: loc ∧
    os.locate fs (filepath.Clean path +:+ suffix) = (e +:+ suffix) :: loc.
Proof.
  intros Hp Hsplit He Hsuf Hes.
  pose proof (filepath_facts.Clean_nonempty path) as Hne.
  rewrite filepath_facts.Clean_eq in * by done.
  set (r := filepath.IsAbs path) in *.
  unfold filepath.clean_elems in *. rewrite Hsplit, fold_left_app in *.
  simpl in *. set (k := fold_left (filepath.clean_step r) before []) in *.
  rewrite clean_step_name in * by done.
  assert (kept_ok r (e :: k)) as Hok.
  { split; [by apply clean_step_name|]. by apply filepath_facts.fold_clean_ok. }
  assert (Forall is_elem (e :: k)) as Hel.
  { pose proof (filepath_facts.split_elems path) as Hall.
    rewrite Hsplit in Hall. apply Forall_app in Hall as [Hb _].
    constructor; [apply He|].
    by apply filepath_facts.fold_clean_elems. }
  pose proof (filepath_facts.IsAbs_render _ _ Hok Hel) as Habs.
  set (F := filepath.render r (rev (e :: k))) in *.
  assert (∃ pre, filepath.split F = pre ++ [e] ∧
                 ∀ start, fold_left os.walk pre start = fold_left os.walk (rev k) start)
    as (pre & HF & Hpre).
  { assert (Forall is_elem (rev k ++ [e])) as Hel'.
    { apply Forall_app. split; [|by repeat constructor; apply He].
      inversion_clear Hel as [|?? _ Hk]. rewrite Forall_forall in *.
      intros x Hx. apply Hk. by rewrite list_elem_of_In, in_rev, <-list_elem_of_In. }
    assert (rev k ++ [e] ≠ []) as Hnil by (by destruct (rev k)).
    subst F. simpl. unfold filepath.render. destruct r.
    - change (filepath.split ("/" +:+ ?j)) with ("" :: filepath.split j).
      rewrite filepath_facts.split_join by done.
      exists ("" :: rev k). split; [done|]. done.
    - destruct (rev k ++ [e]) as [|x l] eqn:E; [done|].
      rewrite filepath_facts.split_join by done.
      exists (rev k). by rewrite <-E. }
  exists (fold_left os.walk (rev k) (if r then [] else os.cwd fs)).
  unfold os.locate. rewrite filepath_facts.IsAbs_app by done.
  rewrite Habs, split_app_elem, HF, app_last_snoc, !fold_left_app, !Hpre by done.
  simpl. by rewrite !walk_name.
Qed.

(** The record file and the temporary file of [Write] are two entries of
    one directory, whatever the collection and the resource. *)
Lemma Write_locations fs dir resource :
  dir ≠ "" →
  let fnlPath := filepath.Join [dir; resource +:+ ".json"] in
  ∃ e loc,
    is_name e ∧
    os.locate fs fnlPath = e :: loc ∧
    os.locate fs (fnlPath +:+ ".tmp") = (e +:+ ".tmp") :: loc.
Proof.
  intros Hd fnlPath. subst fnlPath.
  unfold filepath.Join. rewrite decide_False by done.
  change (filepath.join [dir; ?y]) with (dir +:+ "/" +:+ y).
  set (path := dir +:+ "/" +:+ resource +:+ ".json").
  assert (path ≠ "") as Hp.
  { intros [? _]%app_eq_nil. done. }
  assert (∃ before x, filepath.split path = before ++ [x +:+ ".json"])
    as (before & x & Hsplit).
  { subst path. rewrite filepath_facts.split_app, split_app_elem by done.
    destruct (snoc_inv (filepath.split resource)) as (l & x & ->);
      [apply filepath_facts.split_nonempty|].
    exists (filepath.split dir ++ l), x.
    by rewrite app_last_snoc, (assoc_L (++)). }
  assert (is_name (x +:+ ".json")) as He.
  { apply suffixed_name.
    pose proof (filepath_facts.split_elems path) as Hall.
    rewrite Hsplit in Hall. apply Forall_app in Hall as [_ Hx].
    by inversion Hx. }
  assert (is_name ((x +:+ ".json") +:+ ".tmp")) as Het.
  { apply suffixed_name. unfold is_elem.
    rewrite split_app_elem by done. destruct He as [-> _]. done. }
  destruct (locate_ends_in_name fs path before (x +:+ ".json") ".tmp")
    as (loc & Hf & Ht); [done..|].
  by exists (x +:+ ".json"), loc.
Qed.

Lemma app_ne_self (e : string) a suffix : e ≠ e +:+ String a suffix.
Proof. induction e as [|x e IH]; [done|]. rewrite app_cons. congruence. Qed.

Lemma locate_cwd fs fs' path :
  os.cwd fs' = os.cwd fs → os.locate fs' path = os.locate fs path.
Proof. unfold os.locate. by intros ->. Qed.

Section Write_files.
Context {V : Type} `{JSON V}.

(** The files after a successful [Write]: those after [MkdirAll], with the
    temporary file written and then moved onto the record file. *)
Lemma Write_ok_files (collection resource : string) (v : V) (s s' : St) :
  Write collection resource v s = (inr (), s') →
  let dir := filepath.Join [dir (driver s); collection] in
  let fnlPath := filepath.Join [dir; resource +:+ ".json"] in
  ∃ b fs1 e loc,
    os.MkdirAll (fs (world s)) dir = (fs1, None) ∧
    MarshalIndent v "" tab = inr b ∧
    is_name e ∧
    (∀ fs', os.cwd fs' = os.cwd (fs (world s)) →
       os.locate fs' fnlPath = e :: loc ∧
       os.locate fs' (fnlPath +:+ ".tmp") = (e +:+ ".tmp") :: loc) ∧
    os.cwd (fs (world s')) = os.cwd (fs (world s)) ∧
    os.tree (fs (world s')) =
      <[e :: loc := os.File (b ++ [x0a])]>
        (delete ((e +:+ ".tmp") :: loc)
           (<[(e +:+ ".tmp") :: loc := os.File (b ++ [x0a])]> (os.tree fs1))).
Proof.
  intros Hw dirp fnlPath.
  destruct (Write_nonempty _ _ _ _ _ Hw) as [Hc Hr].
  destruct (Write_run collection resource v s Hc Hr) as (m & s1 & _ & Heq).
  simpl in Heq. rewrite Heq in Hw. clear Heq. fold dirp fnlPath in Hw.
  assert (dirp ≠ "") as Hd.
  { subst dirp. unfold filepath.Join.
    destruct (decide (dir (driver s) = "")); [rewrite decide_False by done|];
      apply filepath_facts.Clean_nonempty. }
  destruct (Write_locations (fs (world s)) dirp resource Hd)
    as (e & loc & He & Hf & Ht). fold fnlPath in Hf, Ht.
  assert (∀ fs', os.cwd fs' = os.cwd (fs (world s)) →
            os.locate fs' fnlPath = e :: loc ∧
            os.locate fs' (fnlPath +:+ ".tmp") = (e +:+ ".tmp") :: loc) as Hloc.
  { intros fs' Hcwd. by rewrite !(locate_cwd _ _ _ Hcwd). }
  destruct (os.MkdirAll _ _) as [fs1 [err|]] eqn:Hmk; [done|].
  pose proof (os_facts.MkdirAll_spec _ _ _ _ Hmk) as (Hcwd1 & _ & _).
  destruct (MarshalIndent v "" tab) as [err|b]; [done|].
  destruct (os.WriteFile _ _ _) as [fs2 [err|]] eqn:Hwf; [done|].
  destruct (os.Rename _ _ _) as [fs3 [err|]] eqn:Hrn; [done|].
  injection Hw as <-. simpl.
  pose proof (os_facts.WriteFile_find _ _ _ _ Hwf) as Htmp.
  apply os_facts.WriteFile_ok in Hwf as (_ & _ & ->).
  apply (os_facts.Rename_file_ok _ _ _ _ _ Htmp) in Hrn as (_ & _ & ->).
  simpl. change (os.locate (os.mkFS (os.cwd fs1) ?t) ?p) with (os.locate fs1 p).
  destruct (Hloc fs1 Hcwd1) as [-> ->].
  exists b, fs1, e, loc. split_and!; done.
Qed.

End Write_files.

(** X8. A successful [Write] leaves no temporary file: nothing is found at
    [fnlPath + ".tmp"] afterwards, also when a file of that name was there
    before. *)
Theorem Write_leaves_no_temporary_file {V : Type} `{JSON V}
    (collection resource : string) (v : V) (s s' : St) :
  Write collection resource v s = (inr (), s') →
  let fnlPath :=
    filepath.Join [filepath.Join [dir (driver s); collection]; resource +:+ ".json"] in
  ∃ e, os.find (fs (world s')) (fnlPath +:+ ".tmp") = inl e.
Proof.
  intros Hw fnlPath.
  destruct (Write_ok_files _ _ _ _ _ Hw)
    as (b & fs1 & e & loc & _ & _ & He & Hloc & Hcwd & Htree).
  destruct (Hloc _ Hcwd) as [_ Ht]. fold fnlPath in Ht.
  unfold os.find. rewrite decide_False.
  - rewrite Ht, os_facts.node_at_cons, Htree.
    rewrite lookup_insert_ne, lookup_delete_eq; [eauto|].
    intros [= Heq]. by apply app_ne_self in Heq.
  - intros [_ ?]%app_eq_nil. done.
Qed.

Lemma Write_leaves_no_temporary_file_witness :
  let fnlPath :=
    filepath.Join [filepath.Join [dir (driver started); "users"]; "Kamo" +:+ ".json"] in
  fnlPath +:+ ".tmp" = "Users/users/Kamo.json.tmp" ∧
  ∃ e, os.find (fs (world with_Kamo)) (fnlPath +:+ ".tmp") = inl e.
Proof.
  split; [vm_compute; reflexivity|].
  exact (Write_leaves_no_temporary_file "users" "Kamo" Kamo started with_Kamo
           with_Kamo_run).
Defined.

(** X9. A successful [Write] changes nothing beside its record file and its
    temporary file: every other entry, file or directory, is still there
    with the same contents, and no other file is new. The other records of
    the collection are among them. *)
Theorem Write_keeps_other_entries {V : Type} `{JSON V}
    (collection resource : string) (v : V) (s s' : St) (k : list string) :
  Write collection resource v s = (inr (), s') →
  let fnlPath :=
    filepath.Join [filepath.Join [dir (driver s); collection]; resource +:+ ".json"] in
  k ≠ os.locate (fs (world s)) fnlPath →
  k ≠ os.locate (fs (world s)) (fnlPath +:+ ".tmp") →
  (∀ n, os.tree (fs (world s)) !! k = Some n →
        os.tree (fs (world s')) !! k = Some n) ∧
  (∀ data, os.tree (fs (world s')) !! k = Some (os.File data) →
           os.tree (fs (world s)) !! k = Some (os.File data)).
Proof.
  intros Hw fnlPath Hkf Hkt.
  destruct (Write_ok_files _ _ _ _ _ Hw)
    as (b & fs1 & e & loc & Hmk & _ & He & Hloc & Hcwd & Htree).
  destruct (Hloc _ eq_refl) as [Hf Ht]. fold fnlPath in Hf, Ht.
  rewrite Hf in Hkf. rewrite Ht in Hkt.
  rewrite Htree, lookup_insert_ne, lookup_delete_ne, lookup_insert_ne by done.
  apply os_facts.MkdirAll_spec in Hmk as (_ & Hadd & _).
  destruct (Hadd k) as [->|(Hnone & -> & _)]; [done|].
  rewrite Hnone. done.
Qed.

Lemma Write_keeps_other_entries_witness :
  os.tree (fs (world with_both)) !! ["Kamo.json"; "users"; "Users"; "work"; "home"]
  = Some (os.File Kamo_json).
Proof.
  destruct (Write_keeps_other_entries "users" "Kamzo" Kamzo with_Kamo with_both
              ["Kamo.json"; "users"; "Users"; "work"; "home"])
    as [Hkeep _].
  - vm_compute. reflexivity.
  - vm_compute. intros [=].
  - vm_compute. intros [=].
  - apply Hkeep. vm_compute. reflexivity.
Defined.

(** X10. A [Write] that fails, at whatever step, leaves every file with the
    contents it had, and makes no file, except for the temporary file, which
    stays behind when the rename fails. In particular the record written
    before is still the one read. *)
Theorem Write_failure_keeps_files {V : Type} `{JSON V}
    (collection resource : string) (v : V) (s s' : St) (err : error) :
  Write collection resource v s = (inl err, s') →
  let fnlPath :=
    filepath.Join [filepath.Join [dir (driver s); collection]; resource +:+ ".json"] in
  (∀ k data,
     k ≠ os.locate (fs (world s)) (fnlPath +:+ ".tmp") →
     os.tree (fs (world s')) !! k = Some (os.File data)
     ↔ os.tree (fs (world s)) !! k = Some (os.File data)) ∧
  (∀ data,
     os.ReadFile (fs (world s')) fnlPath = inr data
     ↔ os.ReadFile (fs (world s)) fnlPath = inr data).
Proof.
  intros Hw fnlPath.
  destruct (decide (collection = "")) as [Hc|Hc].
  { rewrite Write_missing_name in Hw by by left. by injection Hw as _ <-. }
  destruct (decide (resource = "")) as [Hr|Hr].
  { rewrite Write_missing_name in Hw by by right. by injection Hw as _ <-. }
  assert (filepath.Join [dir (driver s); collection] ≠ "") as Hd.
  { unfold filepath.Join.
    destruct (decide (dir (driver s) = "")); [rewrite decide_False by done|];
      apply filepath_facts.Clean_nonempty. }
  destruct (Write_locations (fs (world s)) _ resource Hd)
    as (e & loc & He & Hf & Ht). fold fnlPath in Hf, Ht.
  assert (os.cwd (fs (world s')) = os.cwd (fs (world s)) ∧
          ∀ k data,
            k ≠ os.locate (fs (world s)) (fnlPath +:+ ".tmp") →
            os.tree (fs (world s')) !! k = Some (os.File data)
            ↔ os.tree (fs (world s)) !! k = Some (os.File data)) as [Hcwd Hfiles].
  { destruct (Write_run collection resource v s Hc Hr) as (m & s1 & _ & Heq).
    simpl in Heq. rewrite Heq in Hw. clear Heq. fold fnlPath in Hw.
    destruct (os.MkdirAll _ _) as [fs1 err1] eqn:Hmk.
    pose proof (os_facts.MkdirAll_files _ _ _ _ Hmk) as Hsame.
    apply os_facts.MkdirAll_spec in Hmk as (Hcwd1 & _ & _).
    destruct err1 as [e1|]; [by injection Hw as _ <-|].
    destruct (MarshalIndent v "" tab) as [e2|b]; [by injection Hw as _ <-|].
    destruct (os.WriteFile _ _ _) as [fs2 [e3|]] eqn:Hwf.
    { apply os_facts.WriteFile_error in Hwf as ->. by injection Hw as _ <-. }
    apply os_facts.WriteFile_ok in Hwf as (_ & _ & ->).
    destruct (os.Rename _ _ _) as [fs3 [e4|]] eqn:Hrn; [|done].
    apply os_facts.Rename_error in Hrn as ->. injection Hw as _ <-. simpl.
    split; [done|]. intros k data Hk.
    rewrite (locate_cwd _ _ _ Hcwd1), lookup_insert_ne by done. apply Hsame. }
  split; [done|]. intros data.
  assert (fnlPath ≠ "") as Hne.
  { subst fnlPath. unfold filepath.Join at 1. rewrite decide_False by done.
    apply filepath_facts.Clean_nonempty. }
  rewrite !os_facts.ReadFile_inr, !os_facts.find_inr.
  rewrite (locate_cwd _ _ _ Hcwd), Hf, !os_facts.node_at_cons.
  rewrite (Hfiles (e :: loc) data); [done|].
  rewrite Ht. intros [= Heq]. by apply app_ne_self in Heq.
Qed.

Lemma Write_failure_keeps_files_witness :
  let s' := (Write "users" "Kamo" Zed with_Kamo).2 in
  let fnlPath :=
    filepath.Join [filepath.Join [dir (driver with_Kamo); "users"]; "Kamo" +:+ ".json"] in
  (Write "users" "Kamo" Zed with_Kamo).1 = inl (invalid_number "abc") ∧
  fnlPath = "Users/users/Kamo.json" ∧
  os.ReadFile (fs (world s')) fnlPath = inr Kamo_json.
Proof.
  intros s' fnlPath.
  split; [vm_compute; reflexivity|]. split; [vm_compute; reflexivity|].
  destruct (Write_failure_keeps_files "users" "Kamo" Zed with_Kamo s'
              (invalid_number "abc")) as [_ Hrecord].
  - vm_compute. reflexivity.
  - apply Hrecord. vm_compute. reflexivity.
Defined.


Lemma Read_missing_name_witness :
  Read "" "Kamo" zero_User started
  = ((Some (Errorf "Missing collection - unable to read!"), zero_User), started) ∧
  Read "users" "" zero_User started
  = ((Some (Errorf "Missing resource - unable to read record (no name)!"), zero_User),
     started).
Proof.
  split.
  - apply (Read_missing_name "" "Kamo" zero_User started). by left.
  - apply (Read_missing_name "users" "" zero_User started). by right.
Defined.

Lemma Read_not_found_witness :
  let record :=
    filepath.Join [dir (driver with_Kamo); "users"; "John" +:+ ".json"] in
  record = "Users/users/John.json" ∧
  Read "users" "John" zero_User with_Kamo
  = ((Some (PathError "stat" record ENOENT), zero_User), with_Kamo).
Proof.
  intros record. split; [vm_compute; reflexivity|].
  apply (Read_not_found "users" "John" zero_User with_Kamo ENOENT);
    [discriminate | discriminate | vm_compute; reflexivity].
Defined.

Lemma Read_decodes_file_witness :
  Read "users" "Kamo" zero_User with_Kamo = (Unmarshal Kamo_json zero_User, with_Kamo).
Proof.
  apply (Read_decodes_file "users" "Kamo" zero_User with_Kamo (os.File Kamo_json));
    [discriminate | discriminate | vm_compute; reflexivity].
Defined.

(** ** Writing a record again *)

Lemma mkdir_all_there t loc :
  os.node_at t loc = Some os.Dir → os.mkdir_all t loc = (t, None).
Proof.
  intros Hd. destruct loc as [|e loc]; [reflexivity|].
  change (os.mkdir_all t (e :: loc))
    with (match os.node_at t (e :: loc) with
          | Some os.Dir => (t, None)
          | Some (os.File _) => (t, Some ENOTDIR)
          | None => match os.mkdir_all t loc with
                    | (t', Some err) => (t', Some err)
                    | (t', None) => (<[e :: loc := os.Dir]> t', None)
                    end
          end).
  by rewrite Hd.
Qed.

Lemma WriteFile_not_dir fs name data fs' :
  os.WriteFile fs name data = (fs', None) →
  os.node_at (os.tree fs) (os.locate fs name) ≠ Some os.Dir.
Proof.
  unfold os.WriteFile. case_decide; [done|].
  by destruct (os.node_at _ _) as [[|]|].
Qed.

Lemma Rename_not_dir fs old new fs' :
  os.Rename fs old new = (fs', None) → os.find fs new ≠ inr os.Dir.
Proof.
  unfold os.Rename. intros Hrn Hnew. rewrite Hnew in Hrn. cbv zeta in Hrn.
  destruct (os.find fs old) as [?|[?|]]; discriminate Hrn.
Qed.

Lemma FS_eta (fs : os.FS) : os.mkFS (os.cwd fs) (os.tree fs) = fs.
Proof. by destruct fs. Qed.

Section Write_again.
Context {V : Type} `{JSON V}.

(** X11. After a successful [Write] the collection directory is a
    directory: the record file never takes its place, and neither does the
    temporary file. *)
Theorem Write_keeps_collection_directory
    (collection resource : string) (v : V) (s s' : St) :
  Write collection resource v s = (inr (), s') →
  os.find (fs (world s')) (filepath.Join [dir (driver s); collection])
  = inr os.Dir.
Proof.
  intros Hw. set (dirp := filepath.Join [dir (driver s); collection]).
  destruct (Write_nonempty _ _ _ _ _ Hw) as [Hc Hr].
  destruct (Write_run collection resource v s Hc Hr) as (m & s1 & _ & Heq).
  simpl in Heq. rewrite Heq in Hw. clear Heq. fold dirp in Hw.
  set (fnlPath := filepath.Join [dirp; resource +:+ ".json"]) in *.
  destruct (os.MkdirAll _ _) as [fs1 [err|]] eqn:Hmk; [done|].
  pose proof (os_facts.MkdirAll_spec _ _ _ _ Hmk) as (Hcwd1 & _ & Hdir).
  specialize (Hdir eq_refl). apply os_facts.find_inr in Hdir as [Hd Hdir].
  destruct (MarshalIndent v "" tab) as [err|b]; [done|].
  destruct (os.WriteFile _ _ _) as [fs2 [err|]] eqn:Hwf; [done|].
  destruct (os.Rename _ _ _) as [fs3 [err|]] eqn:Hrn; [done|].
  injection Hw as <-. simpl.
  pose proof (WriteFile_not_dir _ _ _ _ Hwf) as Htmp.
  pose proof (Rename_not_dir _ _ _ _ Hrn) as Hfnl.
  pose proof (os_facts.WriteFile_find _ _ _ _ Hwf) as Hfind.
  apply os_facts.WriteFile_ok in Hwf as (_ & Htne & ->).
  apply (os_facts.Rename_file_ok _ _ _ _ _ Hfind) in Hrn as (Hfne & Hfl & ->).
  simpl in *. change (os.locate (os.mkFS (os.cwd fs1) ?t) ?p) with (os.locate fs1 p) in *.
  apply os_facts.find_inr. split; [done|]. simpl.
  change (os.locate (os.mkFS (os.cwd fs1) ?t) ?p) with (os.locate fs1 p).
  destruct (os.locate fs1 dirp) as [|x D] eqn:ED; [done|].
  rewrite os_facts.node_at_cons in *.
  assert (x :: D ≠ os.locate fs1 (fnlPath +:+ ".tmp")) as Hne1.
  { intros Heq. apply Htmp. rewrite <-Heq. by rewrite os_facts.node_at_cons. }
  assert (x :: D ≠ os.locate fs1 fnlPath) as Hne2.
  { intros Heq. apply Hfnl. apply os_facts.find_inr. split; [done|]. simpl.
    change (os.locate (os.mkFS (os.cwd fs1) ?t) ?p) with (os.locate fs1 p).
    rewrite <-Heq, os_facts.node_at_cons. by rewrite lookup_insert_ne. }
  by rewrite lookup_insert_ne, lookup_delete_ne, lookup_insert_ne.
Qed.

(** X12. Writing the same value again to the same record leaves the files
    exactly as the first [Write] left them; and it succeeds when the
    resource name has no separator. *)
Theorem Write_again (collection resource : string) (v : V) (s s1 : St) :
  Write collection resource v s = (inr (), s1) →
  fs (world (Write collection resource v s1).2) = fs (world s1) ∧
  (is_elem resource → (Write collection resource v s1).1 = inr ()).
Proof.
  intros Hw.
  destruct (Write_nonempty _ _ _ _ _ Hw) as [Hc Hr].
  pose proof (Write_keeps_collection_directory _ _ _ _ _ Hw) as Hcoll.
  destruct (Write_ok_files _ _ _ _ _ Hw)
    as (b & fs1 & e & loc & _ & Hb & He & Hloc & Hcwd & Htree).
  pose proof (Write_ok _ _ _ _ _ Hw) as (_ & _ & _ & Hdir).
  destruct (Hloc _ Hcwd) as [Hf Ht].
  set (dirp := filepath.Join [dir (driver s); collection]) in *.
  set (fnlPath := filepath.Join [dirp; resource +:+ ".json"]) in *.
  set (F := e :: loc) in *. set (T := (e +:+ ".tmp") :: loc) in *.
  assert (∀ t, os.node_at t T = t !! T) as HnT by reflexivity.
  assert (∀ t, os.node_at t F = t !! F) as HnF by reflexivity.
  assert (F ≠ T) as HFT.
  { intros [= Heq]. by apply app_ne_self in Heq. }
  assert (os.tree (fs (world s1)) !! T = None) as HT.
  { by rewrite Htree, lookup_insert_ne, lookup_delete_eq. }
  assert (os.tree (fs (world s1)) !! F = Some (os.File (b ++ [x0a]))) as HF.
  { by rewrite Htree, lookup_insert_eq. }
  destruct (Write_run collection resource v s1 Hc Hr) as (m & s2 & _ & Heq).
  simpl in Heq. rewrite Heq. clear Heq. rewrite Hdir. fold dirp fnlPath.
  apply os_facts.find_inr in Hcoll as [Hd Hcoll].
  assert (os.MkdirAll (fs (world s1)) dirp = (fs (world s1), None)) as ->.
  { unfold os.MkdirAll. rewrite decide_False by done.
    by rewrite mkdir_all_there, FS_eta. }
  rewrite Hb.
  assert (fnlPath +:+ ".tmp" ≠ "") as Htne.
  { intros [_ ?]%app_eq_nil. done. }
  unfold os.WriteFile. rewrite decide_False by done.
  rewrite Ht. fold T. rewrite HnT, HT. simpl.
  assert (is_elem resource → os.node_at (os.tree (fs (world s1))) loc = Some os.Dir)
    as Hparent.
  { intros Hel.
    assert (is_name (resource +:+ ".json")) as Hname.
    { apply suffixed_name. unfold is_elem in *.
      rewrite split_app_elem by done. by rewrite Hel. }
    pose proof (os_facts.locate_Join (fs (world s1)) dirp _ Hd Hname) as Hj.
    fold fnlPath in Hj. rewrite Hf in Hj. injection Hj as _ ->. done. }
  destruct (os.node_at (os.tree (fs (world s1))) loc) as [[d|]|] eqn:Hloc';
    simpl; try (split; [done | by intros ?%Hparent]).
  assert (os.find (os.mkFS (os.cwd (fs (world s1)))
                     (<[T := os.File (b ++ [x0a])]> (os.tree (fs (world s1)))))
            (fnlPath +:+ ".tmp") = inr (os.File (b ++ [x0a]))) as Hold.
  { apply os_facts.find_inr. split; [done|]. simpl.
    change (os.locate (os.mkFS (os.cwd ?f) ?t) ?p) with (os.locate f p).
    rewrite Ht. fold T. by rewrite HnT, lookup_insert_eq. }
  assert (os.find (os.mkFS (os.cwd (fs (world s1)))
                     (<[T := os.File (b ++ [x0a])]> (os.tree (fs (world s1)))))
            fnlPath = inr (os.File (b ++ [x0a]))) as Hnew.
  { apply os_facts.find_inr. split.
    - subst fnlPath. unfold filepath.Join at 1. rewrite decide_False by done.
      apply filepath_facts.Clean_nonempty.
    - simpl. change (os.locate (os.mkFS (os.cwd ?f) ?t) ?p) with (os.locate f p).
      rewrite Hf. fold F. by rewrite HnF, lookup_insert_ne. }
  unfold os.Rename. rewrite Hold, Hnew. simpl.
  change (os.locate (os.mkFS (os.cwd ?f) ?t) ?p) with (os.locate f p).
  rewrite Hf, Ht. fold F T.
  rewrite delete_insert_id, insert_id, FS_eta by done. done.
Qed.

End Write_again.

Lemma Write_keeps_collection_directory_witness :
  filepath.Join [dir (driver started); "users"] = "Users/users" ∧
  os.find (fs (world with_Kamo)) (filepath.Join [dir (driver started); "users"])
  = inr os.Dir.
Proof.
  split; [vm_compute; reflexivity|].
  exact (Write_keeps_collection_directory "users" "Kamo" Kamo started with_Kamo
           with_Kamo_run).
Defined.

Lemma Write_again_witness :
  fs (world (Write "users" "Kamo" Kamo with_Kamo).2) = fs (world with_Kamo) ∧
  (Write "users" "Kamo" Kamo with_Kamo).1 = inr ().
Proof.
  destruct (Write_again "users" "Kamo" Kamo started with_Kamo with_Kamo_run)
    as [Hsame Hok].
  split; [exact Hsame|]. apply Hok. reflexivity.
Defined.
